(** * catalog-gcloud-storage: the plugin's three operations

    A shallow embedding of [lib/prepare.ts] (the credential preparer) and
    [lib/imports.ts] ([listResources], [getResource]) of the Google Cloud
    Storage catalog plugin, together with the properties its specification
    states about them.

    Conventions of the embedding.
    - JavaScript strings are [string]s; the code only inspects the
      characters ['/'] and ['.'], and lengths of strings that end in ['/'].
    - An optional property of an object is an [option]; JavaScript truthiness
      of an optional string is [truthy].
    - The objects the caller passes in ([catalogConfig], [secrets], [params])
      are mutated in place by the code: every operation is a state
      transformer over its context, and the state reached is reported also
      when the operation throws.
    - The storage SDK, the logger and Node's library functions that are only
      passed through are oracles of a [World]; every call to one of them is
      recorded in a trace of [Event]s. *)

From Stdlib Require Import String Ascii List ZArith Bool Lia.
Import ListNotations.
Local Open Scope string_scope.
Local Open Scope Z_scope.

(* ===================================================================== *)
(** * JavaScript string primitives *)
(* ===================================================================== *)

Module JS.

Definition slash : ascii := "/"%char.
Definition dot : ascii := "."%char.

(** [s.length] *)
Definition len (s : string) : Z := Z.of_nat (String.length s).

(** The first [n] characters of [s], and [s] without them. *)
Fixpoint take (n : nat) (s : string) : string :=
  match n, s with
  | S n', String a s' => String a (take n' s')
  | _, _ => EmptyString
  end.

Fixpoint drop (n : nat) (s : string) : string :=
  match n, s with
  | S n', String _ s' => drop n' s'
  | _, _ => s
  end.

(** [s.substring(start, end)]: both indices are clamped to [0, s.length]
    and swapped when [start > end]. *)
Definition clamp (s : string) (i : Z) : Z := Z.max 0 (Z.min i (len s)).

Definition substring (s : string) (start stop : Z) : string :=
  let a := clamp s start in
  let b := clamp s stop in
  let lo := Z.min a b in
  let hi := Z.max a b in
  take (Z.to_nat (hi - lo)) (drop (Z.to_nat lo) s).

(** [s.substring(start)] *)
Definition substring_from (s : string) (start : Z) : string :=
  substring s start (len s).

(** [s.slice(start, end)] for the non-negative indices Node's [path] module
    passes: empty when [start >= end]. *)
Definition slice (s : string) (start stop : Z) : string :=
  take (Z.to_nat (clamp s stop - clamp s start)) (drop (Z.to_nat (clamp s start)) s).

(** [s.lastIndexOf(c)] for a one-character [c]: the largest index holding
    [c], or [-1]. *)
Fixpoint lastIndexOf (c : ascii) (s : string) : Z :=
  match s with
  | EmptyString => -1
  | String a s' =>
      let r := lastIndexOf c s' in
      if 0 <=? r then r + 1
      else if Ascii.eqb a c then 0 else -1
  end.

(** [s.split(c)] for a one-character separator: never empty, [""] splits
    into [[""]]. *)
Fixpoint split (c : ascii) (s : string) : list string :=
  match s with
  | EmptyString => [EmptyString]
  | String a s' =>
      if Ascii.eqb a c then EmptyString :: split c s'
      else match split c s' with
           | h :: t => String a h :: t
           | [] => [String a EmptyString]
           end
  end.

(** [l.join(sep)] *)
Definition join (sep : string) (l : list string) : string := String.concat sep l.

(** [l.map((x, idx) => f(x, idx))] *)
Fixpoint mapi_from {A B : Type} (f : A -> nat -> B) (idx : nat) (l : list A) : list B :=
  match l with
  | [] => []
  | x :: rest => f x idx :: mapi_from f (S idx) rest
  end.

Definition mapi {A B : Type} (f : A -> nat -> B) (l : list A) : list B :=
  mapi_from f 0%nat l.

(** Truthiness of an optional string: [undefined] and [''] are falsy. *)
Definition truthy (o : option string) : bool :=
  match o with
  | Some s => negb (String.eqb s "")
  | None => false
  end.

(** The value of a truthy optional string. *)
Definition nonempty (o : option string) : option string :=
  match o with
  | Some s => if String.eqb s "" then None else Some s
  | None => None
  end.

(** [o === s] for an optional string [o] and a string [s]. *)
Definition strict_eq (o : option string) (s : string) : bool :=
  match o with
  | Some s' => String.eqb s' s
  | None => false
  end.

End JS.

(* ===================================================================== *)
(** * Node's [path] module (POSIX flavour) *)
(* ===================================================================== *)

(** [path.basename(p)] and [path.extname(p)] scan the path from its last
    character to its first, keeping a few indices.  The loops are written
    over the reversed character list; the index of the character at the
    head is the length of the remaining tail. *)

Module NodePath.

Record basename_state := {
  bn_start : Z;
  bn_end : Z;
  bn_matchedSlash : bool
}.

Definition basename_init : basename_state :=
  {| bn_start := 0; bn_end := -1; bn_matchedSlash := true |}.

Fixpoint basename_loop (rl : list ascii) (st : basename_state) : basename_state :=
  match rl with
  | [] => st
  | c :: rest =>
      let i := Z.of_nat (List.length rest) in
      if Ascii.eqb c JS.slash then
        if negb (bn_matchedSlash st)
        then {| bn_start := i + 1; bn_end := bn_end st;
                bn_matchedSlash := bn_matchedSlash st |}
        else basename_loop rest st
      else if bn_end st =? -1 then
        basename_loop rest
          {| bn_start := bn_start st; bn_end := i + 1; bn_matchedSlash := false |}
      else basename_loop rest st
  end.

(** [path.basename(p)] *)
Definition basename (p : string) : string :=
  let st := basename_loop (rev (list_ascii_of_string p)) basename_init in
  if bn_end st =? -1 then "" else JS.slice p (bn_start st) (bn_end st).

(** [path.basename(p, suffix)] keeps two more variables while it tries to
    match the suffix from its last character. *)
Record suffix_state := {
  sx_start : Z;
  sx_end : Z;
  sx_matchedSlash : bool;
  sx_extIdx : Z;
  sx_firstNonSlashEnd : Z
}.

(** One non-separator character [c] at index [i]. *)
Definition suffix_char (suffix : string) (c : ascii) (i : Z) (st : suffix_state)
  : suffix_state :=
  let st1 :=
    if sx_firstNonSlashEnd st =? -1
    then {| sx_start := sx_start st; sx_end := sx_end st; sx_matchedSlash := false;
            sx_extIdx := sx_extIdx st; sx_firstNonSlashEnd := i + 1 |}
    else st in
  if 0 <=? sx_extIdx st1 then
    if match String.get (Z.to_nat (sx_extIdx st1)) suffix with
       | Some c' => Ascii.eqb c c'
       | None => false
       end
    then
      let extIdx := sx_extIdx st1 - 1 in
      {| sx_start := sx_start st1;
         sx_end := if extIdx =? -1 then i else sx_end st1;
         sx_matchedSlash := sx_matchedSlash st1;
         sx_extIdx := extIdx;
         sx_firstNonSlashEnd := sx_firstNonSlashEnd st1 |}
    else
      {| sx_start := sx_start st1; sx_end := sx_firstNonSlashEnd st1;
         sx_matchedSlash := sx_matchedSlash st1; sx_extIdx := -1;
         sx_firstNonSlashEnd := sx_firstNonSlashEnd st1 |}
  else st1.

Fixpoint suffix_loop (suffix : string) (rl : list ascii) (st : suffix_state)
  : suffix_state :=
  match rl with
  | [] => st
  | c :: rest =>
      let i := Z.of_nat (List.length rest) in
      if Ascii.eqb c JS.slash then
        if negb (sx_matchedSlash st)
        then {| sx_start := i + 1; sx_end := sx_end st;
                sx_matchedSlash := sx_matchedSlash st; sx_extIdx := sx_extIdx st;
                sx_firstNonSlashEnd := sx_firstNonSlashEnd st |}
        else suffix_loop suffix rest st
      else suffix_loop suffix rest (suffix_char suffix c i st)
  end.

(** [path.basename(p, suffix)] *)
Definition basename_suffix (p suffix : string) : string :=
  if (0 <? JS.len suffix) && (JS.len suffix <=? JS.len p) then
    if String.eqb suffix p then ""
    else
      let st :=
        suffix_loop suffix (rev (list_ascii_of_string p))
          {| sx_start := 0; sx_end := -1; sx_matchedSlash := true;
             sx_extIdx := JS.len suffix - 1; sx_firstNonSlashEnd := -1 |} in
      let stop :=
        if sx_start st =? sx_end st then sx_firstNonSlashEnd st
        else if sx_end st =? -1 then JS.len p
        else sx_end st in
      JS.slice p (sx_start st) stop
  else basename p.

Record extname_state := {
  ex_startDot : Z;
  ex_startPart : Z;
  ex_end : Z;
  ex_matchedSlash : bool;
  ex_preDotState : Z
}.

Definition extname_init : extname_state :=
  {| ex_startDot := -1; ex_startPart := 0; ex_end := -1;
     ex_matchedSlash := true; ex_preDotState := 0 |}.

(** One non-separator character [c] at index [i]. *)
Definition extname_char (c : ascii) (i : Z) (st : extname_state) : extname_state :=
  let st1 :=
    if ex_end st =? -1
    then {| ex_startDot := ex_startDot st; ex_startPart := ex_startPart st;
            ex_end := i + 1; ex_matchedSlash := false;
            ex_preDotState := ex_preDotState st |}
    else st in
  if Ascii.eqb c JS.dot then
    if ex_startDot st1 =? -1
    then {| ex_startDot := i; ex_startPart := ex_startPart st1;
            ex_end := ex_end st1; ex_matchedSlash := ex_matchedSlash st1;
            ex_preDotState := ex_preDotState st1 |}
    else if negb (ex_preDotState st1 =? 1)
    then {| ex_startDot := ex_startDot st1; ex_startPart := ex_startPart st1;
            ex_end := ex_end st1; ex_matchedSlash := ex_matchedSlash st1;
            ex_preDotState := 1 |}
    else st1
  else if negb (ex_startDot st1 =? -1)
  then {| ex_startDot := ex_startDot st1; ex_startPart := ex_startPart st1;
          ex_end := ex_end st1; ex_matchedSlash := ex_matchedSlash st1;
          ex_preDotState := -1 |}
  else st1.

Fixpoint extname_loop (rl : list ascii) (st : extname_state) : extname_state :=
  match rl with
  | [] => st
  | c :: rest =>
      let i := Z.of_nat (List.length rest) in
      if Ascii.eqb c JS.slash then
        if negb (ex_matchedSlash st)
        then {| ex_startDot := ex_startDot st; ex_startPart := i + 1;
                ex_end := ex_end st; ex_matchedSlash := ex_matchedSlash st;
                ex_preDotState := ex_preDotState st |}
        else extname_loop rest st
      else extname_loop rest (extname_char c i st)
  end.

(** [path.extname(p)] *)
Definition extname (p : string) : string :=
  let st := extname_loop (rev (list_ascii_of_string p)) extname_init in
  if (ex_startDot st =? -1)
     || (ex_end st =? -1)
     || (ex_preDotState st =? 0)
     || ((ex_preDotState st =? 1)
         && (ex_startDot st =? ex_end st - 1)
         && (ex_startDot st =? ex_startPart st + 1))
  then ""
  else JS.slice p (ex_startDot st) (ex_end st).

End NodePath.

(* ===================================================================== *)
(** * Data model *)
(* ===================================================================== *)

(** [GCloudStorageConfig]: the catalog configuration. *)
Module Config.
Record t := {
  bucketName : option string;
  serviceAccount : option string
}.
Definition set_serviceAccount (v : option string) (c : t) : t :=
  {| bucketName := bucketName c; serviceAccount := v |}.
End Config.

(** The secret store. *)
Module Secrets.
Record t := {
  serviceAccount : option string
}.
Definition set_serviceAccount (v : option string) (s : t) : t :=
  {| serviceAccount := v |}.
(** [delete secrets.serviceAccount] *)
Definition delete_serviceAccount (s : t) : t :=
  {| serviceAccount := None |}.
End Secrets.

(** The listing parameters. *)
Module Params.
Record t := {
  currentFolderId : option string;
  q : option string
}.
Definition set_currentFolderId (v : string) (p : t) : t :=
  {| currentFolderId := Some v; q := q p |}.
End Params.

(** Modelled from the spec: the capability flags of [lib/capabilities.ts],
    which is not among the sources; [prepare] only hands them back. *)
Definition Capabilities : Type := list string.

(** A JavaScript [Error]; only its message is observed. *)
Record Error := { message : string }.

(** A metadata value that is a number or a string ([typeof] tells which). *)
Inductive JsValue :=
| JsNumber (n : Z)
| JsString (s : string).

Record FileMetadata := {
  size : option JsValue;
  contentType : option string
}.

(** An object of the bucket as the SDK returns it. *)
Record File := {
  name : string;
  metadata : FileMetadata
}.

(** The third component of the SDK's listing answer. *)
Record ApiResponse := {
  prefixes : option (list string)
}.

Record GetFilesOptions := {
  autoPaginate : option bool;
  prefix : option string;
  matchGlob : option string;
  delimiter : option string;
  includeTrailingDelimiter : option bool;
  maxResults : option Z
}.

(** [{ id, title, type: 'folder' }] *)
Record Folder := {
  folder_id : string;
  folder_title : string
}.

(** An entry of a listing: the [type] field is the constructor. *)
Inductive Entry :=
| ResourceEntry (id title : string) (size : option JsValue) (format : string)
    (mimeType : option string)
| FolderEntry (f : Folder).

Record ListResult := {
  count : nat;
  results : list Entry;
  path : list Folder
}.

(** What [getResource] resolves with. *)
Record Resource := {
  res_id : string;
  res_title : string;
  res_filePath : string;
  res_format : string
}.

(** How a call or a block completes. *)
Inductive completion (A : Type) :=
| Normal (a : A)
| Throw (e : Error).
Arguments Normal {A} a.
Arguments Throw {A} e.

(** How the promise of an asynchronous operation settles; [Pending] is a
    promise on which neither [resolve] nor [reject] is ever called. *)
Inductive settlement (A : Type) :=
| Fulfilled (a : A)
| Rejected (e : Error)
| Pending.
Arguments Fulfilled {A} a.
Arguments Rejected {A} e.
Arguments Pending {A}.

(** The [log] collaborator of [getResource].  Each function gives how the
    call completes for who awaits it: [Throw] is a call that throws or
    returns a promise that is rejected.  Only a call that is not awaited
    tells the two apart: when [log_error msg] fails, [log_error_thrown msg]
    says whether the call itself throws ([true]) or the promise it returns
    is rejected ([false]). *)
Record Log := {
  log_step : string -> completion unit;
  log_task : string -> string -> option Z -> completion unit;
  log_progress : string -> Z -> completion unit;
  log_error : string -> completion unit;
  log_error_thrown : string -> bool
}.

(** How a stream ends: without error, or with its ['error'] event. *)
Inductive StreamEnd :=
| StreamFinish
| StreamError (e : Error).

(** The read stream of an object: the lengths of the chunks it delivers to
    its ['data'] listeners, then how it ends, its data exhausted or its
    ['error'] event delivered. *)

Record ReadStream := {
  chunks : list Z;
  ending : StreamEnd
}.

(** The collaborators outside the plugin.
    - [new_Storage cred] is [new Storage({ credentials: JSON.parse(cred) })]
      (in [prepare], preceded by the dynamic import of the SDK); it throws
      when the text is not JSON or the constructor throws.
    - [bucket_getFiles], [file_getMetadata], [file_createReadStream] are the
      SDK calls on [storage.bucket(name)] and [.file(id)].
    - [fs_createWriteStream path] is how the file stream opened on [path]
      ends once the read stream piped into it is exhausted: ['finish'],
      everything flushed, or ['error'], the file cannot be opened or
      written (a path that is a directory, a full disk).
    - [Number] is [globalThis.Number] on a string ([None] is [NaN]);
      [path_join] is Node's [path.join(a, b)]. *)
Record World := {
  new_Storage : string -> completion unit;
  bucket_getFiles :
    option string -> GetFilesOptions -> completion (list File * option ApiResponse);
  file_getMetadata : option string -> string -> completion FileMetadata;
  file_createReadStream : option string -> string -> ReadStream;
  fs_createWriteStream : string -> StreamEnd;
  Number : string -> option Z;
  path_join : string -> string -> string
}.

(** The observable calls, in the order they are made. *)
Inductive Event :=
| EvNewStorage (credentials : string)
| EvGetFiles (bucket : option string) (options : GetFilesOptions)
| EvGetMetadata (bucket : option string) (file : string)
| EvCreateReadStream (bucket : option string) (file : string)
| EvCreateWriteStream (filePath : string)
| EvLogStep (msg : string)
| EvLogTask (task label : string) (total : option Z)
| EvLogProgress (task : string) (current : Z)
| EvLogError (msg : string)
| EvConsoleError (msg : string).

(* ===================================================================== *)
(** * Effects: state, exceptions and a trace *)
(* ===================================================================== *)

(** A computation over the caller's objects [S]: how it completes, the
    objects as it leaves them, and the calls it made. *)
Definition Eff (S A : Type) : Type := S -> completion A * S * list Event.

Definition ret {S A : Type} (a : A) : Eff S A :=
  fun s => (Normal a, s, []).

Definition bind {S A B : Type} (m : Eff S A) (k : A -> Eff S B) : Eff S B :=
  fun s =>
    match m s with
    | (Normal a, s1, t1) =>
        match k a s1 with
        | (r, s2, t2) => (r, s2, (t1 ++ t2)%list)
        end
    | (Throw e, s1, t1) => (Throw e, s1, t1)
    end.

Definition throw {S A : Type} (e : Error) : Eff S A :=
  fun s => (Throw e, s, []).

(** [try { m } catch (error) { h error }] *)
Definition try_catch {S A : Type} (m : Eff S A) (h : Error -> Eff S A) : Eff S A :=
  fun s =>
    match m s with
    | (Normal a, s1, t1) => (Normal a, s1, t1)
    | (Throw e, s1, t1) =>
        match h e s1 with
        | (r, s2, t2) => (r, s2, (t1 ++ t2)%list)
        end
    end.

Definition get {S : Type} : Eff S S :=
  fun s => (Normal s, s, []).

Definition modify {S : Type} (f : S -> S) : Eff S unit :=
  fun s => (Normal tt, f s, []).

(** An awaited call to a collaborator: recorded, and its exception is the
    caller's. *)
Definition call {S A : Type} (ev : Event) (r : completion A) : Eff S A :=
  fun s => (r, s, [ev]).

(** A call awaited inside an [async] event listener: recorded; its outcome
    does not reach the block that installed the listener, and is handed
    back as the way the listener goes on. *)
Definition attempt {S A : Type} (ev : Event) (r : completion A) : Eff S (completion A) :=
  fun s => (Normal r, s, [ev]).

(** A call that is not awaited: recorded; its exception is the caller's
    when the call itself throws; the promise it returns is dropped,
    rejected or not. *)
Definition unawaited {S A : Type} (ev : Event) (r : completion A) (thrown : bool)
  : Eff S unit :=
  fun s =>
    (match r with
     | Throw e => if thrown then Throw e else Normal tt
     | Normal _ => Normal tt
     end, s, [ev]).

Declare Scope eff_scope.
Delimit Scope eff_scope with eff.
Notation "x <- m ;; k" := (bind m (fun x => k))
  (at level 61, m at next level, right associativity) : eff_scope.
Notation "m ;; k" := (bind m (fun _ => k))
  (at level 61, right associativity) : eff_scope.
Local Open Scope eff_scope.

(** The promise an [async] function returns when its body is [m]. *)
Definition async {S A : Type} (m : Eff S A) (s : S) : settlement A * S * list Event :=
  match m s with
  | (Normal a, s1, t) => (Fulfilled a, s1, t)
  | (Throw e, s1, t) => (Rejected e, s1, t)
  end.

(** The same when the body returns a promise without awaiting it: the
    function's promise follows the returned one. *)
Definition async_returning_promise {S A : Type} (m : Eff S (settlement A)) (s : S)
  : settlement A * S * list Event :=
  match m s with
  | (Normal p, s1, t) => (p, s1, t)
  | (Throw e, s1, t) => (Rejected e, s1, t)
  end.

Definition settled {A S : Type} (r : settlement A * S * list Event) : settlement A :=
  fst (fst r).
Definition final {A S : Type} (r : settlement A * S * list Event) : S :=
  snd (fst r).
Definition trace {A S : Type} (r : settlement A * S * list Event) : list Event :=
  snd r.

(* ===================================================================== *)
(** * The contexts the host passes *)
(* ===================================================================== *)

Module PrepareContext.
Record t := {
  catalogConfig : Config.t;
  capabilities : Capabilities;
  secrets : Secrets.t
}.
Definition with_catalogConfig (f : Config.t -> Config.t) (c : t) : t :=
  {| catalogConfig := f (catalogConfig c); capabilities := capabilities c;
     secrets := secrets c |}.
Definition with_secrets (f : Secrets.t -> Secrets.t) (c : t) : t :=
  {| catalogConfig := catalogConfig c; capabilities := capabilities c;
     secrets := f (secrets c) |}.
End PrepareContext.

Module ListResourcesContext.
Record t := {
  catalogConfig : Config.t;
  secrets : Secrets.t;
  params : Params.t
}.
Definition with_params (f : Params.t -> Params.t) (c : t) : t :=
  {| catalogConfig := catalogConfig c; secrets := secrets c;
     params := f (params c) |}.
End ListResourcesContext.

Module GetResourceContext.
Record t := {
  catalogConfig : Config.t;
  secrets : Secrets.t;
  resourceId : string;
  tmpDir : string;
  log : Log
}.
End GetResourceContext.

(** The string held by an optional string (used where the code has just
    tested it to be one). *)
Definition str (o : option string) : string :=
  match o with
  | Some s => s
  | None => ""
  end.

(** [console.error(...)] and the like: a recorded call that returns. *)
Definition emit {S : Type} (ev : Event) : Eff S unit := call ev (Normal tt).

(* ===================================================================== *)
(** * lib/prepare.ts *)
(* ===================================================================== *)

(** The masking sentinel: twenty-five asterisks. *)
Definition MASK : string := "*************************".

Definition MSG_INVALID : string :=
  "Invalid bucketName or service account credentials for Google Cloud Storage".
Definition MSG_REQUIRED : string :=
  "Service account and bucketName is required for Google Cloud Storage".

Definition probe_options : GetFilesOptions :=
  {| autoPaginate := None; prefix := None; matchGlob := None; delimiter := None;
     includeTrailingDelimiter := None; maxResults := Some 1 |}.

(** The body of the default export. *)
Definition prepare_body (w : World) : Eff PrepareContext.t PrepareContext.t :=
  ctx <- get ;;
  let serviceAccount := Config.serviceAccount (PrepareContext.catalogConfig ctx) in
  (if JS.truthy serviceAccount && negb (JS.strict_eq serviceAccount MASK) then
     modify (PrepareContext.with_secrets (Secrets.set_serviceAccount serviceAccount)) ;;
     modify (PrepareContext.with_catalogConfig (Config.set_serviceAccount (Some MASK)))
   else if JS.truthy (Secrets.serviceAccount (PrepareContext.secrets ctx))
           && JS.strict_eq serviceAccount ""
   then modify (PrepareContext.with_secrets Secrets.delete_serviceAccount)
   else ret tt) ;;
  ctx1 <- get ;;
  let secret := Secrets.serviceAccount (PrepareContext.secrets ctx1) in
  let bucket := Config.bucketName (PrepareContext.catalogConfig ctx1) in
  (if JS.truthy secret && JS.truthy bucket then
     try_catch
       (call (EvNewStorage (str secret)) (new_Storage w (str secret)) ;;
        _ <- call (EvGetFiles bucket probe_options)
                  (bucket_getFiles w bucket probe_options) ;;
        ret tt)
       (fun _ =>
          emit (EvConsoleError "Error accessing Google Cloud Storage") ;;
          throw {| message := MSG_INVALID |})
   else throw {| message := MSG_REQUIRED |}) ;;
  ctx2 <- get ;;
  ret ctx2.

Definition prepare (w : World) (ctx : PrepareContext.t) :=
  async (prepare_body w) ctx.

(* ===================================================================== *)
(** * lib/imports.ts: listResources *)
(* ===================================================================== *)

Definition MSG_UNAUTHENTICATED : string :=
  "Service Account is required to access Google Cloud Storage".
Definition MSG_LISTING_FAILED : string :=
  "Erreur dans le listage des fichiers / Authentification GCS possiblement incorrecte".
Definition MSG_DOWNLOAD_FAILED : string :=
  "Erreur dans le téléchargement du fichier / Authentification GCS possiblement incorrecte".

(** What reading [.prefixes] of an [undefined] response throws. *)
Definition TypeError_prefixes : Error :=
  {| message := "Cannot read properties of undefined (reading 'prefixes')" |}.

(** The template literal [`${currentFolderId}*${q}**`]. *)
Definition glob (currentFolderId q : string) : string :=
  currentFolderId ++ "*" ++ q ++ "**".

Definition listing_options (p : Params.t) : GetFilesOptions :=
  let q := if JS.truthy (Params.q p)
           then Some (glob (str (Params.currentFolderId p)) (str (Params.q p)))
           else None in
  {| autoPaginate := Some true;
     prefix := Params.currentFolderId p;
     matchGlob := q;
     delimiter := Some "/";
     includeTrailingDelimiter := Some false;
     maxResults := None |}.

(** [path.extname(name).substring(1)] *)
Definition format_of (name : string) : string :=
  JS.substring_from (NodePath.extname name) 1.

Definition resource_of_file (file : File) : Entry :=
  ResourceEntry (name file) (NodePath.basename (name file))
    (size (metadata file)) (format_of (name file)) (contentType (metadata file)).

Definition resFiles (p : Params.t) (files : list File) : list Entry :=
  map resource_of_file
    (filter (fun file => negb (JS.strict_eq (Params.currentFolderId p) (name file))) files).

Definition folder_of_prefix (prefix : string) : Entry :=
  let dosName := JS.substring prefix 0 (JS.len prefix - 1) in
  FolderEntry
    {| folder_id := prefix;
       folder_title := JS.substring_from dosName (JS.lastIndexOf JS.slash dosName + 1) |}.

Definition foldersFromPrefixes (prefixes : list string) : list Entry :=
  map folder_of_prefix (filter (fun prefix => negb (String.eqb prefix "/")) prefixes).

Definition foldersPath (p : Params.t) : list string :=
  filter (fun fold => negb (String.eqb fold ""))
    (JS.split JS.slash (str (Params.currentFolderId p))).

Definition foldPath (p : Params.t) : list Folder :=
  JS.mapi
    (fun fold idx =>
       {| folder_id := JS.join "/" (firstn (idx + 1) (foldersPath p)) ++ "/";
          folder_title := fold |})
    (foldersPath p).

Definition listResources_body (w : World) : Eff ListResourcesContext.t ListResult :=
  ctx <- get ;;
  let secret := Secrets.serviceAccount (ListResourcesContext.secrets ctx) in
  if negb (JS.truthy secret) then throw {| message := MSG_UNAUTHENTICATED |}
  else
    try_catch
      (call (EvNewStorage (str secret)) (new_Storage w (str secret)) ;;
       (if negb (JS.truthy (Params.currentFolderId (ListResourcesContext.params ctx)))
        then modify (ListResourcesContext.with_params (Params.set_currentFolderId ""))
        else ret tt) ;;
       ctx1 <- get ;;
       let params := ListResourcesContext.params ctx1 in
       let bucket := Config.bucketName (ListResourcesContext.catalogConfig ctx1) in
       let options := listing_options params in
       answer <- call (EvGetFiles bucket options) (bucket_getFiles w bucket options) ;;
       let files := fst answer in
       prefixes <- match snd answer with
                   | None => throw TypeError_prefixes
                   | Some response =>
                       ret match prefixes response with
                           | Some l => l
                           | None => []
                           end
                   end ;;
       let resources := resFiles params files in
       let folders := foldersFromPrefixes prefixes in
       ret {| count := (List.length resources + List.length folders)%nat;
              results := (resources ++ folders)%list;
              path := foldPath params |})
      (fun _ =>
         emit (EvConsoleError "Error listing resources:") ;;
         throw {| message := MSG_LISTING_FAILED |}).

Definition listResources (w : World) (ctx : ListResourcesContext.t) :=
  async (listResources_body w) ctx.

(* ===================================================================== *)
(** * lib/imports.ts: getResource *)
(* ===================================================================== *)

(** [typeof size === 'string' ? Number(size) : typeof size === 'number' ?
    size : NaN]; [None] is [NaN]. *)
Definition sizeNum (w : World) (m : FileMetadata) : option Z :=
  match size m with
  | Some (JsString s) => Number w s
  | Some (JsNumber n) => Some n
  | None => None
  end.

(** The [async] ['data'] listener, once per chunk delivered: the counter
    grows and the progress is reported.  When the report fails, the promise
    of the listener is rejected and nothing handles it; those rejections
    are returned, in order. *)
Fixpoint on_data {S : Type} (log : Log) (task : string) (lengths : list Z) (progress : Z)
  : Eff S (list Error) :=
  match lengths with
  | [] => ret []
  | chunk_length :: rest =>
      let progress := progress + chunk_length in
      reported <- attempt (EvLogProgress task progress) (log_progress log task progress) ;;
      unhandled <- on_data log task rest progress ;;
      ret (match reported with
           | Normal _ => unhandled
           | Throw error => error :: unhandled
           end)
  end.

(** [new Promise((resolve, reject) => ...)]: the executor opens both
    streams; the promise settles from their events.
    - ['error'] of the read stream: the listener awaits [log.error] and then
      rejects with the stream's error; when [log.error] fails, [reject] is
      not reached.
    - ['finish'] of the file stream, once the read stream is exhausted and
      everything is flushed, resolves.  It is not reached when the file
      stream ends with ['error'], to which nothing listens, nor when the
      promise of a ['data'] listener was rejected: with nothing to handle
      it, Node by default ends the process on such a rejection as soon as
      the current callbacks are done, which is before the file is
      flushed. *)
Definition download_promise (w : World) (log : Log) (bucket : option string)
    (resourceId fileName filePath : string) : Eff GetResourceContext.t (settlement Resource) :=
  emit (EvCreateReadStream bucket resourceId) ;;
  emit (EvCreateWriteStream filePath) ;;
  let stream := file_createReadStream w bucket resourceId in
  unhandled <- on_data log ("download " ++ resourceId) (chunks stream) 0 ;;
  match ending stream with
  | StreamError error =>
      let msg := "Error during download: " ++ message error in
      logged <- attempt (EvLogError msg) (log_error log msg) ;;
      match logged with
      | Normal _ => ret (Rejected error)
      | Throw _ => ret Pending
      end
  | StreamFinish =>
      match unhandled, fs_createWriteStream w filePath with
      | [], StreamFinish =>
          ret (Fulfilled
                 {| res_id := resourceId;
                    res_title :=
                      NodePath.basename_suffix fileName (NodePath.extname fileName);
                    res_filePath := filePath;
                    res_format := JS.substring_from (NodePath.extname fileName) 1 |})
      | _, _ => ret Pending
      end
  end.

Definition getResource_body (w : World) : Eff GetResourceContext.t (settlement Resource) :=
  ctx <- get ;;
  let secret := Secrets.serviceAccount (GetResourceContext.secrets ctx) in
  let log := GetResourceContext.log ctx in
  let resourceId := GetResourceContext.resourceId ctx in
  let bucket := Config.bucketName (GetResourceContext.catalogConfig ctx) in
  if negb (JS.truthy secret) then throw {| message := MSG_UNAUTHENTICATED |}
  else
    try_catch
      (call (EvNewStorage (str secret)) (new_Storage w (str secret)) ;;
       let fileName :=
         JS.substring_from resourceId (JS.lastIndexOf JS.slash resourceId + 1) in
       let step := "Téléchargement du fichier : " ++ fileName in
       call (EvLogStep step) (log_step log step) ;;
       let filePath := path_join w (GetResourceContext.tmpDir ctx) fileName in
       metadata <- call (EvGetMetadata bucket resourceId)
                        (file_getMetadata w bucket resourceId) ;;
       let task := "download " ++ resourceId in
       call (EvLogTask task "Progression" (sizeNum w metadata))
            (log_task log task "Progression" (sizeNum w metadata)) ;;
       download_promise w log bucket resourceId fileName filePath)
      (fun error =>
         emit (EvConsoleError "Error getting resource:") ;;
         let msg := "Error during file download: " ++ message error in
         unawaited (EvLogError msg) (log_error log msg) (log_error_thrown log msg) ;;
         throw {| message := MSG_DOWNLOAD_FAILED |}).

Definition getResource (w : World) (ctx : GetResourceContext.t) :=
  async_returning_promise (getResource_body w) ctx.

(* ===================================================================== *)
(** * index.ts *)
(* ===================================================================== *)

(** The plugin object imports each operation on demand and delegates. *)
Module plugin.
Definition prepare := prepare.
Definition listResources := listResources.
Definition getResource := getResource.
End plugin.

(* ===================================================================== *)
(** * The specification's vocabulary *)
(* ===================================================================== *)

(** The validation probe of [prepare] is made (a secret and a bucket name
    are there) and succeeds: the client is built and the one-item listing
    returns. *)
Definition probe_succeeds (w : World) (secret bucket : option string) : bool :=
  JS.truthy secret && JS.truthy bucket &&
  match new_Storage w (str secret), bucket_getFiles w bucket probe_options with
  | Normal _, Normal _ => true
  | _, _ => false
  end.

(** The listing requests a trace holds. *)
Fixpoint getFiles_calls (t : list Event) : list (option string * GetFilesOptions) :=
  match t with
  | [] => []
  | EvGetFiles bucket options :: rest => (bucket, options) :: getFiles_calls rest
  | _ :: rest => getFiles_calls rest
  end.

(** Whether a trace opens the read stream of an object. *)
Definition stream_opened (t : list Event) : bool :=
  existsb (fun ev => match ev with EvCreateReadStream _ _ => true | _ => false end) t.

Definition is_resource (e : Entry) : bool :=
  match e with ResourceEntry _ _ _ _ _ => true | FolderEntry _ => false end.
Definition is_folder (e : Entry) : bool :=
  match e with ResourceEntry _ _ _ _ _ => false | FolderEntry _ => true end.
Definition entry_id (e : Entry) : string :=
  match e with ResourceEntry id _ _ _ _ => id | FolderEntry f => folder_id f end.

Module Spec.

Definition nonempty_segments (p : string) : list string :=
  filter (fun seg => negb (String.eqb seg "")) (JS.split JS.slash p).

(** "Characters after the last [.], empty if none". *)
Definition after_last_dot (s : string) : string :=
  let k := JS.lastIndexOf JS.dot s in
  if k <? 0 then "" else JS.substring_from s (k + 1).

(** The same, with a leading dot not counted as starting an extension. *)
Definition extension (s : string) : string :=
  let k := JS.lastIndexOf JS.dot s in
  if k <=? 0 then "" else JS.substring_from s (k + 1).

(** "Last non-empty path segment". *)
Definition last_nonempty_segment (p : string) : string :=
  last (nonempty_segments p) "".

(** A prefix that ends with one ['/'] after a character that is not one. *)
Definition single_trailing_slash (p : string) : bool :=
  match rev (list_ascii_of_string p) with
  | c1 :: c2 :: _ => Ascii.eqb c1 JS.slash && negb (Ascii.eqb c2 JS.slash)
  | _ => false
  end.

(** The resource entry the specification describes for an object. *)
Definition resource_entry (file : File) : Entry :=
  ResourceEntry (name file) (NodePath.basename (name file)) (size (metadata file))
    (after_last_dot (name file)) (contentType (metadata file)).

(** The folder entry the specification describes for a common prefix. *)
Definition folder_entry (p : string) : Entry :=
  FolderEntry {| folder_id := p; folder_title := last_nonempty_segment p |}.

(** The listing as the specification states it: every object, then every
    prefix but ["/"]. *)
Definition stated_results (files : list File) (prefixes : list string) : list Entry :=
  (map resource_entry files
   ++ map folder_entry (filter (fun p => negb (String.eqb p "/")) prefixes))%list.

(** The resource entry of an object, as amended. *)
Definition resource_for (file : File) (e : Entry) : Prop :=
  e = ResourceEntry (name file) (NodePath.basename (name file)) (size (metadata file))
        (extension (NodePath.basename (name file))) (contentType (metadata file)).

(** The folder entry of a prefix, as amended: the title is settled for the
    prefixes that end with a single ['/']. *)
Definition folder_for (p : string) (e : Entry) : Prop :=
  exists title,
    e = FolderEntry {| folder_id := p; folder_title := title |} /\
    (single_trailing_slash p = true -> title = last_nonempty_segment p).

(** The breadcrumb: one folder per segment, each id extending its parent's. *)
Fixpoint breadcrumb_from (parent : string) (segments : list string) : list Folder :=
  match segments with
  | [] => []
  | seg :: rest =>
      let id := parent ++ seg ++ "/" in
      {| folder_id := id; folder_title := seg |} :: breadcrumb_from id rest
  end.

Definition breadcrumb (currentFolderId : option string) : list Folder :=
  breadcrumb_from "" (nonempty_segments (str currentFolderId)).

End Spec.

(* ===================================================================== *)
(** * Observations on a download *)
(* ===================================================================== *)

(** The progress values a trace reports, in order. *)
Fixpoint progress_values (t : list Event) : list Z :=
  match t with
  | [] => []
  | EvLogProgress _ current :: rest => current :: progress_values rest
  | _ :: rest => progress_values rest
  end.

(** The files a trace opens for writing, in order. *)
Fixpoint written_files (t : list Event) : list string :=
  match t with
  | [] => []
  | EvCreateWriteStream filePath :: rest => filePath :: written_files rest
  | _ :: rest => written_files rest
  end.

(** The sums of the first one, two, ... elements of a list, from [start]. *)
Fixpoint running_sums (start : Z) (l : list Z) : list Z :=
  match l with
  | [] => []
  | x :: rest => (start + x) :: running_sums (start + x) rest
  end.

(** The name under which [getResource] stores the object [id]. *)
Definition fileName_of (id : string) : string :=
  JS.substring_from id (JS.lastIndexOf JS.slash id + 1).

(** What is logged when the caught error is [e]. *)
Definition caught (e : Error) : list Event :=
  [EvConsoleError "Error getting resource:";
   EvLogError ("Error during file download: " ++ message e)].

(** The error the [catch] block of [getResource] ends with when the caught
    error is [e]: the DownloadFailed message, unless its call of
    [log.error] throws. *)
Definition surfaced (log : Log) (e : Error) : Error :=
  let msg := "Error during file download: " ++ message e in
  match log_error log msg with
  | Throw thrown =>
      if log_error_thrown log msg then thrown else {| message := MSG_DOWNLOAD_FAILED |}
  | Normal _ => {| message := MSG_DOWNLOAD_FAILED |}
  end.

(** The failures of [log.progress] over the values [currents]. *)
Definition failed_reports (log : Log) (task : string) (currents : list Z) : list Error :=
  flat_map
    (fun current =>
       match log_progress log task current with
       | Normal _ => []
       | Throw e => [e]
       end)
    currents.

(* ===================================================================== *)
(** * Concrete worlds and contexts *)
(* ===================================================================== *)

Module Sample.

Definition quiet_log : Log :=
  {| log_step := fun _ => Normal tt;
     log_task := fun _ _ _ => Normal tt;
     log_progress := fun _ _ => Normal tt;
     log_error := fun _ => Normal tt;
     log_error_thrown := fun _ => false |}.


(** A log whose [error] throws when it is called. *)
Definition throwing_error_log : Log :=
  {| log_step := fun _ => Normal tt;
     log_task := fun _ _ _ => Normal tt;
     log_progress := fun _ _ => Normal tt;
     log_error := fun _ => Throw {| message := "error sink failed" |};
     log_error_thrown := fun _ => true |}.

Definition file (n : string) (sz : Z) (ct : string) : File :=
  {| name := n;
     metadata := {| size := Some (JsNumber sz); contentType := Some ct |} |}.

(** A backend that answers every listing with [files] and [prefixes], knows
    every object with [meta] and streams it as [stream]. *)
Definition backend (files : list File) (pfx : list string) (stream : ReadStream) : World :=
  {| new_Storage := fun _ => Normal tt;
     bucket_getFiles := fun _ _ => Normal (files, Some {| prefixes := Some pfx |});
     file_getMetadata := fun _ _ =>
       Normal {| size := Some (JsNumber 1000); contentType := Some "text/csv" |};
     file_createReadStream := fun _ _ => stream;
     fs_createWriteStream := fun _ => StreamFinish;
     Number := fun _ => None;
     path_join := fun dir f => dir ++ "/" ++ f |}.

(** A bucket root with two objects and two folders. *)
Definition root_files : list File :=
  [file "file1.csv" 1000 "text/csv"; file "file2.txt" 2000 "plain/text"].
Definition root_prefixes : list string := ["folder1/"; "folder2/"].
Definition root_world : World :=
  backend root_files root_prefixes {| chunks := [10; 20]; ending := StreamFinish |}.

(** The backend of the root listing test, which also answers the prefix
    ["/"]. *)
Definition test_prefixes : list string := ["/"; "folder1/"; "folder2/"].
Definition test_world : World :=
  backend root_files test_prefixes {| chunks := [10; 20]; ending := StreamFinish |}.

(** What the root listing returns on both. *)
Definition root_result : ListResult :=
  {| count := 4;
     results :=
       [ResourceEntry "file1.csv" "file1.csv" (Some (JsNumber 1000)) "csv"
          (Some "text/csv");
        ResourceEntry "file2.txt" "file2.txt" (Some (JsNumber 2000)) "txt"
          (Some "plain/text");
        FolderEntry {| folder_id := "folder1/"; folder_title := "folder1" |};
        FolderEntry {| folder_id := "folder2/"; folder_title := "folder2" |}];
     path := [] |}.

(** A backend whose object metadata cannot be fetched. *)
Definition not_found_world : World :=
  {| new_Storage := fun _ => Normal tt;
     bucket_getFiles := fun _ _ => Throw {| message := "File not found" |};
     file_getMetadata := fun _ _ => Throw {| message := "File not found" |};
     file_createReadStream := fun _ _ => {| chunks := []; ending := StreamFinish |};
     fs_createWriteStream := fun _ => StreamFinish;
     Number := fun _ => None;
     path_join := fun dir f => dir ++ "/" ++ f |}.

(** A world where no client can be built from the credentials. *)
Definition invalid_credentials_world : World :=
  {| new_Storage := fun _ => Throw {| message := "Invalid credentials" |};
     bucket_getFiles := fun _ _ => Normal ([], Some {| prefixes := None |});
     file_getMetadata := fun _ _ => Normal {| size := None; contentType := None |};
     file_createReadStream := fun _ _ => {| chunks := []; ending := StreamFinish |};
     fs_createWriteStream := fun _ => StreamFinish;
     Number := fun _ => None;
     path_join := fun dir f => dir ++ "/" ++ f |}.

(** A backend whose stream breaks after one chunk. *)
Definition broken_stream_world : World :=
  backend [] []
    {| chunks := [10]; ending := StreamError {| message := "socket hang up" |} |}.

(** A folder listing with a placeholder object for the folder itself, a
    dot-file and a prefix that ends with two slashes. *)
Definition docs_files : list File :=
  [file "docs/" 0 "text/plain"; file "docs/.env" 12 "text/plain"].
Definition docs_prefixes : list string := ["docs/a//"].
Definition docs_world : World :=
  backend docs_files docs_prefixes {| chunks := []; ending := StreamFinish |}.

(** What the listing of ["docs/"] on [docs_world] returns. *)
Definition docs_result : ListResult :=
  {| count := 2;
     results :=
       [ResourceEntry "docs/.env" ".env" (Some (JsNumber 12)) "" (Some "text/plain");
        FolderEntry {| folder_id := "docs/a//"; folder_title := "" |}];
     path := [{| folder_id := "docs/"; folder_title := "docs" |}] |}.

Definition secret : string := "{ service-account-json }".

Definition config : Config.t :=
  {| Config.bucketName := Some "test-bucket"; Config.serviceAccount := Some MASK |}.
Definition with_secret : Secrets.t := {| Secrets.serviceAccount := Some secret |}.
Definition no_secret : Secrets.t := {| Secrets.serviceAccount := None |}.

(** The smallest credentials [JSON.parse] accepts. *)
Definition json_secret : Secrets.t := {| Secrets.serviceAccount := Some "{}" |}.

Definition listing (s : Secrets.t) (folder query : option string) : ListResourcesContext.t :=
  {| ListResourcesContext.catalogConfig := config;
     ListResourcesContext.secrets := s;
     ListResourcesContext.params :=
       {| Params.currentFolderId := folder; Params.q := query |} |}.

Definition download (s : Secrets.t) (id : string) : GetResourceContext.t :=
  {| GetResourceContext.catalogConfig := config;
     GetResourceContext.secrets := s;
     GetResourceContext.resourceId := id;
     GetResourceContext.tmpDir := "/tmp";
     GetResourceContext.log := quiet_log |}.

Definition download_logging (l : Log) (s : Secrets.t) (id : string)
  : GetResourceContext.t :=
  {| GetResourceContext.catalogConfig := config;
     GetResourceContext.secrets := s;
     GetResourceContext.resourceId := id;
     GetResourceContext.tmpDir := "/tmp";
     GetResourceContext.log := l |}.

Definition preparing (bucket account stored : option string) : PrepareContext.t :=
  {| PrepareContext.catalogConfig :=
       {| Config.bucketName := bucket; Config.serviceAccount := account |};
     PrepareContext.capabilities := [];
     PrepareContext.secrets := {| Secrets.serviceAccount := stored |} |}.
End Sample.

(* ===================================================================== *)
(** * The invariant of [path.extname]'s loop *)
(* ===================================================================== *)

(** After the characters [done] of the last component have been read (last
    character first), [n] being the index where the component ends: the end
    is marked, and either no dot has been met, or [done] splits at the first
    dot met, whose index is recorded; [preDotState] tells whether anything
    was read after it. *)
Definition extname_inv (n : Z) (done : list ascii) (st : NodePath.extname_state) : Prop :=
  NodePath.ex_end st = n /\
  NodePath.ex_matchedSlash st = false /\
  NodePath.ex_startPart st = 0 /\
  ((~ In JS.dot done /\ NodePath.ex_startDot st = -1 /\ NodePath.ex_preDotState st = 0) \/
   (exists rv ru,
       done = (rv ++ JS.dot :: ru)%list /\ ~ In JS.dot rv /\
       NodePath.ex_startDot st = n - Z.of_nat (List.length rv) - 1 /\
       (ru = [] -> NodePath.ex_preDotState st = 0) /\
       (ru <> [] -> NodePath.ex_preDotState st = 1 \/ NodePath.ex_preDotState st = -1))).


(* ===================================================================== *)
(** * Sample evaluations of the string and path functions *)
(* ===================================================================== *)

Example basename_file : NodePath.basename "folder1/file1.csv" = "file1.csv".
Proof. reflexivity. Qed.

Example basename_trailing : NodePath.basename "a/b.c//" = "b.c".
Proof. reflexivity. Qed.

Example basename_suffix_file : NodePath.basename_suffix "file1.csv" ".csv" = "file1".
Proof. reflexivity. Qed.

Example basename_suffix_other : NodePath.basename_suffix "a/file1.csv/" ".txt" = "file1.csv".
Proof. reflexivity. Qed.

Example basename_suffix_only : NodePath.basename_suffix "a/.csv" ".csv" = ".csv".
Proof. reflexivity. Qed.

Example basename_suffix_none : NodePath.basename_suffix "README" "" = "README".
Proof. reflexivity. Qed.

Example extname_file : NodePath.extname "folder1/file1.csv" = ".csv".
Proof. reflexivity. Qed.

Example extname_dotfile : NodePath.extname "docs/.env" = "".
Proof. reflexivity. Qed.

Example extname_dotdot : NodePath.extname ".." = "".
Proof. reflexivity. Qed.

Example extname_tar_gz : NodePath.extname "x.tar.gz" = ".gz".
Proof. reflexivity. Qed.

Example extname_dir_dot : NodePath.extname "v1.2/README" = "".
Proof. reflexivity. Qed.

Example extname_trailing_dot : NodePath.extname "a." = ".".
Proof. reflexivity. Qed.

Example split_folder : JS.split JS.slash "folder1/" = ["folder1"; ""].
Proof. reflexivity. Qed.

Example lastIndexOf_ex : JS.lastIndexOf JS.slash "a/b/c" = 3.
Proof. reflexivity. Qed.

(* ===================================================================== *)
(** * Strings: append, take, drop *)
(* ===================================================================== *)

Lemma append_nil_r (s : string) : s ++ "" = s.
Proof. induction s as [|a s IH]; simpl; [reflexivity | now rewrite IH]. Qed.

Lemma append_assoc (a b c : string) : (a ++ b) ++ c = a ++ b ++ c.
Proof. induction a as [|x a IH]; simpl; [reflexivity | now rewrite IH]. Qed.

Lemma length_append (a b : string) :
  String.length (a ++ b) = (String.length a + String.length b)%nat.
Proof. induction a as [|x a IH]; simpl; [reflexivity | now rewrite IH]. Qed.

Lemma len_append (a b : string) : JS.len (a ++ b) = JS.len a + JS.len b.
Proof. unfold JS.len. rewrite length_append. lia. Qed.

Lemma len_nonneg (s : string) : 0 <= JS.len s.
Proof. unfold JS.len. lia. Qed.

Lemma len_cons (a : ascii) (s : string) : JS.len (String a s) = JS.len s + 1.
Proof. unfold JS.len. simpl String.length. lia. Qed.

Lemma len_zero (s : string) : JS.len s = 0 -> s = "".
Proof. destruct s; [reflexivity | rewrite len_cons; pose proof (len_nonneg s); lia]. Qed.

Lemma take_append (a b : string) : JS.take (String.length a) (a ++ b) = a.
Proof. induction a as [|x a IH]; simpl; [now destruct b | now rewrite IH]. Qed.

Lemma drop_append (a b : string) : JS.drop (String.length a) (a ++ b) = b.
Proof. induction a as [|x a IH]; simpl; [reflexivity | exact IH]. Qed.

Lemma take_all (s : string) : JS.take (String.length s) s = s.
Proof. rewrite <- (append_nil_r s) at 2. rewrite take_append. reflexivity. Qed.

Lemma clamp_inside (s : string) (i : Z) : 0 <= i <= JS.len s -> JS.clamp s i = i.
Proof. unfold JS.clamp. lia. Qed.

(** The middle of three pieces, by its two indices. *)
Lemma slice_middle (a b c : string) :
  JS.slice (a ++ b ++ c) (JS.len a) (JS.len a + JS.len b) = b.
Proof.
  unfold JS.slice.
  pose proof (len_nonneg a). pose proof (len_nonneg b). pose proof (len_nonneg c).
  rewrite !clamp_inside by (rewrite !len_append; lia).
  unfold JS.len.
  replace (Z.to_nat (Z.of_nat (String.length a) + Z.of_nat (String.length b)
                     - Z.of_nat (String.length a))) with (String.length b) by lia.
  rewrite Nat2Z.id, drop_append, take_append. reflexivity.
Qed.

Lemma substring_from_append (a b : string) :
  JS.substring_from (a ++ b) (JS.len a) = b.
Proof.
  unfold JS.substring_from, JS.substring.
  pose proof (len_nonneg a). pose proof (len_nonneg b).
  rewrite !clamp_inside by (rewrite !len_append; lia).
  rewrite len_append.
  replace (Z.min (JS.len a) (JS.len a + JS.len b)) with (JS.len a) by lia.
  replace (Z.max (JS.len a) (JS.len a + JS.len b) - JS.len a) with (JS.len b) by lia.
  unfold JS.len. rewrite !Nat2Z.id, drop_append, take_all. reflexivity.
Qed.

Lemma substring_prefix (a b : string) :
  JS.substring (a ++ b) 0 (JS.len a) = a.
Proof.
  unfold JS.substring.
  pose proof (len_nonneg a). pose proof (len_nonneg b).
  rewrite !clamp_inside by (rewrite !len_append; lia).
  replace (Z.min 0 (JS.len a)) with 0 by lia.
  replace (Z.max 0 (JS.len a) - 0) with (JS.len a) by lia.
  unfold JS.len. rewrite Nat2Z.id. simpl. apply take_append.
Qed.

Lemma list_of_append (a b : string) :
  list_ascii_of_string (a ++ b)
  = (list_ascii_of_string a ++ list_ascii_of_string b)%list.
Proof. induction a as [|x a IH]; simpl; [reflexivity | now rewrite IH]. Qed.

Lemma length_list_of (s : string) :
  List.length (list_ascii_of_string s) = String.length s.
Proof. induction s as [|x s IH]; simpl; [reflexivity | now rewrite IH]. Qed.

Lemma list_of_inj (a b : string) :
  list_ascii_of_string a = list_ascii_of_string b -> a = b.
Proof.
  intro H. rewrite <- (string_of_list_ascii_of_string a),
    <- (string_of_list_ascii_of_string b). now rewrite H.
Qed.


(* ===================================================================== *)
(** * Paths: the last component *)
(* ===================================================================== *)

(** Every path is slashes only, or splits into what precedes its last
    component, that component, and trailing slashes. *)
Lemma path_decomposition (s : string) :
  Forall (eq JS.slash) (list_ascii_of_string s) \/
  exists pre comp sl,
    s = pre ++ comp ++ sl /\ comp <> "" /\
    ~ In JS.slash (list_ascii_of_string comp) /\
    Forall (eq JS.slash) (list_ascii_of_string sl) /\
    (pre = "" \/ exists pre', pre = pre' ++ "/").
Proof.
  induction s as [|a s IH].
  - left. constructor.
  - destruct IH as [Hall | (pre & comp & sl & Hs & Hne & Hns & Hsl & Hpre)].
    + destruct (Ascii.eqb_spec a JS.slash) as [-> | Hna].
      * left. simpl. constructor; [reflexivity | exact Hall].
      * right. exists "", (String a ""), s. simpl.
        repeat split; try easy.
        -- intros [H | []]. now apply Hna.
        -- now left.
    + right. destruct Hpre as [-> | (pre' & ->)].
      * destruct (Ascii.eqb_spec a JS.slash) as [-> | Hna].
        -- exists "/", comp, sl. simpl in *. subst s.
           repeat split; try easy. right. now exists "".
        -- exists "", (String a comp), sl. simpl in *. subst s.
           repeat split; try easy.
           ++ intros [H | H]; [now apply Hna | now apply Hns].
           ++ now left.
      * exists (String a pre' ++ "/"), comp, sl. subst s.
        repeat split; try easy. right. now exists (String a pre').
Qed.

Lemma basename_loop_slashes (l rest : list ascii) (st : NodePath.basename_state) :
  Forall (eq JS.slash) l -> NodePath.bn_matchedSlash st = true ->
  NodePath.basename_loop (l ++ rest) st = NodePath.basename_loop rest st.
Proof.
  intros Hl Hm. induction Hl as [|c l Hc _ IH]; [reflexivity|].
  subst c. simpl. rewrite Hm. simpl. exact IH.
Qed.

Lemma basename_loop_component (l rest : list ascii) (st : NodePath.basename_state) :
  ~ In JS.slash l -> NodePath.bn_end st <> -1 ->
  NodePath.basename_loop (l ++ rest) st = NodePath.basename_loop rest st.
Proof.
  intros Hl He. induction l as [|c l IH]; [reflexivity|].
  simpl. destruct (Ascii.eqb_spec c JS.slash) as [-> | _].
  - exfalso. apply Hl. now left.
  - destruct (Z.eqb_spec (NodePath.bn_end st) (-1)); [contradiction|].
    apply IH. intro H. apply Hl. now right.
Qed.

(** The loop over a component followed by what precedes it. *)
Lemma basename_loop_decomposed (pre comp : list ascii) :
  comp <> [] -> ~ In JS.slash comp ->
  (pre = [] \/ exists pre', pre = (pre' ++ [JS.slash])%list) ->
  let st := NodePath.basename_loop (rev comp ++ rev pre) NodePath.basename_init in
  NodePath.bn_start st = Z.of_nat (List.length pre) /\
  NodePath.bn_end st = Z.of_nat (List.length pre + List.length comp).
Proof.
  intros Hne Hns Hpre st. subst st.
  destruct (rev comp) as [|c rc] eqn:Hrc.
  { exfalso. apply Hne. apply (f_equal (@rev ascii)) in Hrc.
    now rewrite rev_involutive in Hrc. }
  assert (Hin : forall x, In x (c :: rc) -> x <> JS.slash).
  { intros x Hx ->. apply Hns. apply in_rev. now rewrite Hrc. }
  assert (Hlen : List.length comp = S (List.length rc)).
  { rewrite <- (length_rev comp), Hrc. reflexivity. }
  cbn [app NodePath.basename_loop].
  destruct (Ascii.eqb_spec c JS.slash) as [Hc | _].
  { exfalso. apply (Hin c); [now left | exact Hc]. }
  change (NodePath.bn_end NodePath.basename_init =? -1) with true. cbv iota.
  cbn [NodePath.basename_init NodePath.bn_start].
  rewrite basename_loop_component; cbn [NodePath.bn_end].
  - destruct Hpre as [-> | (pre' & ->)].
    + rewrite app_nil_r. cbn [rev app NodePath.basename_loop NodePath.bn_start
        NodePath.bn_end List.length]. split; lia.
    + rewrite rev_app_distr. cbn [rev app NodePath.basename_loop].
      rewrite Ascii.eqb_refl.
      cbn [negb NodePath.bn_matchedSlash NodePath.bn_start NodePath.bn_end].
      rewrite !length_app, !length_rev. cbn [List.length]. rewrite ?length_rev. split; lia.
  - intro H. apply (Hin JS.slash); [now right | reflexivity].
  - rewrite length_app. lia.
Qed.

Lemma rev_list_of_decomposed (pre comp sl : string) :
  rev (list_ascii_of_string (pre ++ comp ++ sl))
  = (rev (list_ascii_of_string sl)
     ++ rev (list_ascii_of_string comp) ++ rev (list_ascii_of_string pre))%list.
Proof. rewrite !list_of_append, !rev_app_distr, app_assoc. reflexivity. Qed.

Lemma list_of_nonempty (s : string) : s <> "" -> list_ascii_of_string s <> [].
Proof. destruct s; [congruence | discriminate]. Qed.

Lemma list_of_ends_with_slash (pre : string) :
  pre = "" \/ (exists pre', pre = pre' ++ "/") ->
  list_ascii_of_string pre = [] \/
  exists l, list_ascii_of_string pre = (l ++ [JS.slash])%list.
Proof.
  intros [-> | (pre' & ->)]; [now left | right].
  exists (list_ascii_of_string pre'). now rewrite list_of_append.
Qed.

Lemma basename_slashes (s : string) :
  Forall (eq JS.slash) (list_ascii_of_string s) -> NodePath.basename s = "".
Proof.
  intro H. unfold NodePath.basename.
  rewrite <- (app_nil_r (rev (list_ascii_of_string s))).
  rewrite basename_loop_slashes by (try apply Forall_rev; easy).
  reflexivity.
Qed.


Lemma extname_loop_slashes (l rest : list ascii) (st : NodePath.extname_state) :
  Forall (eq JS.slash) l -> NodePath.ex_matchedSlash st = true ->
  NodePath.extname_loop (l ++ rest) st = NodePath.extname_loop rest st.
Proof.
  intros Hl Hm. induction Hl as [|c l Hc _ IH]; [reflexivity|].
  subst c. simpl. rewrite Hm. simpl. exact IH.
Qed.

(** The first character of the component marks its end. *)
Lemma extname_inv_first (c : ascii) (i : Z) :
  0 <= i -> extname_inv (i + 1) [c] (NodePath.extname_char c i NodePath.extname_init).
Proof.
  intro Hi. unfold NodePath.extname_char, extname_inv.
  change (NodePath.ex_end NodePath.extname_init =? -1) with true. cbv iota.
  destruct (Ascii.eqb_spec c JS.dot) as [-> | Hc]; cbn.
  - repeat split. right. exists [], []. cbn. repeat split; try easy; lia.
  - repeat split. left. repeat split. intros [H | []]. now apply Hc.
Qed.

(** Every further character keeps the invariant. *)
Lemma extname_inv_step (n : Z) (done : list ascii) (st : NodePath.extname_state)
    (c : ascii) (i : Z) :
  extname_inv n done st -> 0 <= i -> i = n - Z.of_nat (List.length done) - 1 ->
  extname_inv n (done ++ [c]) (NodePath.extname_char c i st).
Proof.
  intros (He & Hm & Hp & Hd) Hi Hn. unfold NodePath.extname_char.
  destruct (Z.eqb_spec (NodePath.ex_end st) (-1)) as [Hneg | _]; [lia|].
  destruct Hd as [(Hno & Hsd & Hpd) | (rv & ru & Hdone & Hno & Hsd & Hpd0 & Hpd1)].
  - rewrite Hsd. change (-1 =? -1) with true. cbn [negb].
    destruct (Ascii.eqb_spec c JS.dot) as [-> | Hc].
    + unfold extname_inv; cbn. repeat split; try easy.
      right. exists done, []. repeat split; try easy; lia.
    + unfold extname_inv. repeat split; try easy.
      left. repeat split; try easy.
      intro H. apply in_app_or in H. destruct H as [H | [H | []]];
        [now apply Hno | now apply Hc].
  - assert (Hlen : (List.length rv < List.length done)%nat).
    { rewrite Hdone, length_app. cbn. lia. }
    destruct (Z.eqb_spec (NodePath.ex_startDot st) (-1)) as [Hneg | _]; [lia|].
    cbn [negb].
    assert (Hdone' : (done ++ [c] = rv ++ JS.dot :: (ru ++ [c]))%list).
    { rewrite Hdone, <- app_assoc. reflexivity. }
    assert (Hru : (ru ++ [c])%list <> []) by now destruct ru.
    destruct (Ascii.eqb_spec c JS.dot) as [-> | Hc].
    + destruct (Z.eqb_spec (NodePath.ex_preDotState st) 1) as [H1 | H1]; cbn [negb].
      * unfold extname_inv. repeat split; try easy.
        right. exists rv, (ru ++ [JS.dot])%list. repeat split; try easy.
        now left.
      * unfold extname_inv; cbn. repeat split; try easy.
        right. exists rv, (ru ++ [JS.dot])%list. repeat split; try easy.
        now left.
    + unfold extname_inv; cbn. repeat split; try easy.
      right. exists rv, (ru ++ [c])%list. repeat split; try easy.
      now right.
Qed.

Lemma extname_loop_component (n : Z) (todo : list ascii) :
  forall (done rest : list ascii) (st : NodePath.extname_state),
    extname_inv n done st -> ~ In JS.slash todo ->
    n = Z.of_nat (List.length todo + List.length rest + List.length done) ->
    exists st',
      NodePath.extname_loop (todo ++ rest) st = NodePath.extname_loop rest st' /\
      extname_inv n (done ++ todo) st'.
Proof.
  induction todo as [|c todo IH]; intros done rest st Hinv Hns Hn.
  - exists st. rewrite app_nil_r. now split.
  - cbn [app NodePath.extname_loop].
    destruct (Ascii.eqb_spec c JS.slash) as [-> | _].
    { exfalso. apply Hns. now left. }
    destruct (IH (done ++ [c])%list rest
                (NodePath.extname_char c (Z.of_nat (List.length (todo ++ rest))) st))
      as (st' & Hloop & Hinv').
    + apply extname_inv_step; [exact Hinv | lia |].
      rewrite length_app. cbn [List.length] in Hn. lia.
    + intro H. apply Hns. now right.
    + rewrite length_app. cbn [List.length] in *. lia.
    + exists st'. rewrite <- app_assoc in Hinv'. now split.
Qed.

(** The loop over a component followed by what precedes it. *)
Lemma extname_loop_decomposed (pre comp : list ascii) :
  comp <> [] -> ~ In JS.slash comp ->
  (pre = [] \/ exists pre', pre = (pre' ++ [JS.slash])%list) ->
  exists st',
    extname_inv (Z.of_nat (List.length pre + List.length comp)) (rev comp) st' /\
    let st := NodePath.extname_loop (rev comp ++ rev pre) NodePath.extname_init in
    NodePath.ex_end st = NodePath.ex_end st' /\
    NodePath.ex_startDot st = NodePath.ex_startDot st' /\
    NodePath.ex_preDotState st = NodePath.ex_preDotState st' /\
    NodePath.ex_startPart st = Z.of_nat (List.length pre).
Proof.
  intros Hne Hns Hpre.
  destruct (rev comp) as [|c rc] eqn:Hrc.
  { exfalso. apply Hne. apply (f_equal (@rev ascii)) in Hrc.
    now rewrite rev_involutive in Hrc. }
  assert (Hin : forall x, In x (c :: rc) -> x <> JS.slash).
  { intros x Hx ->. apply Hns. apply in_rev. now rewrite Hrc. }
  assert (Hlen : List.length comp = S (List.length rc)).
  { rewrite <- (length_rev comp), Hrc. reflexivity. }
  cbn [app NodePath.extname_loop].
  destruct (Ascii.eqb_spec c JS.slash) as [Hc | _].
  { exfalso. apply (Hin c); [now left | exact Hc]. }
  set (n := Z.of_nat (List.length pre + List.length comp)).
  assert (Hfirst : extname_inv n [c]
            (NodePath.extname_char c (Z.of_nat (List.length (rc ++ rev pre)))
               NodePath.extname_init)).
  { replace n with (Z.of_nat (List.length (rc ++ rev pre)) + 1).
    - apply extname_inv_first. lia.
    - unfold n. rewrite length_app, length_rev. lia. }
  destruct (extname_loop_component n rc [c] (rev pre) _ Hfirst) as (st' & Hloop & Hinv).
  - intro H. apply (Hin JS.slash); [now right | reflexivity].
  - unfold n. rewrite length_rev. cbn [List.length]. lia.
  - rewrite Hloop. destruct Hpre as [-> | (pre' & ->)].
    + exists st'. split; [exact Hinv|]. cbn [rev NodePath.extname_loop].
      destruct Hinv as (_ & _ & Hp & _). now rewrite Hp.
    + exists st'. split; [exact Hinv|].
      rewrite rev_app_distr. cbn [rev app NodePath.extname_loop].
      rewrite Ascii.eqb_refl.
      destruct Hinv as (_ & Hm & _ & _). rewrite Hm. cbn.
      repeat split. rewrite length_rev, length_app. cbn [List.length]. lia.
Qed.


Lemma lastIndexOf_absent (c : ascii) (s : string) :
  ~ In c (list_ascii_of_string s) -> JS.lastIndexOf c s = -1.
Proof.
  induction s as [|a s IH]; intro H; [reflexivity|].
  cbn [JS.lastIndexOf]. rewrite IH by (intro; apply H; now right).
  change (0 <=? -1) with false. cbv iota.
  destruct (Ascii.eqb_spec a c) as [-> | _]; [|reflexivity].
  exfalso. apply H. now left.
Qed.

Lemma lastIndexOf_last (c : ascii) (u v : string) :
  ~ In c (list_ascii_of_string v) -> JS.lastIndexOf c (u ++ String c v) = JS.len u.
Proof.
  intro H. induction u as [|a u IH].
  - cbn [append JS.lastIndexOf]. rewrite (lastIndexOf_absent c v H).
    change (0 <=? -1) with false. cbv iota. now rewrite Ascii.eqb_refl.
  - cbn [append JS.lastIndexOf]. rewrite IH, len_cons.
    pose proof (len_nonneg u).
    destruct (Z.leb_spec 0 (JS.len u)); [reflexivity | lia].
Qed.

Lemma format_of_empty_extname : JS.substring_from "" 1 = "".
Proof. reflexivity. Qed.

(** A reversed list that splits at its first dot is a string that splits at
    its last. *)
Lemma split_at_last_dot (comp : string) (rv ru : list ascii) :
  rev (list_ascii_of_string comp) = (rv ++ JS.dot :: ru)%list ->
  comp = string_of_list_ascii (rev ru) ++ String JS.dot (string_of_list_ascii (rev rv)).
Proof.
  intro H. apply list_of_inj.
  rewrite list_of_append. cbn [list_ascii_of_string].
  rewrite !list_ascii_of_string_of_list_ascii.
  apply (f_equal (@rev ascii)) in H. rewrite rev_involutive in H.
  rewrite H, rev_app_distr. cbn [rev]. now rewrite <- app_assoc.
Qed.

(** A path cut into what precedes its last component, that component and
    the trailing slashes. *)
Section DecomposedPath.

Variables pre comp sl : string.
Hypothesis Hne : comp <> "".
Hypothesis Hns : ~ In JS.slash (list_ascii_of_string comp).
Hypothesis Hsl : Forall (eq JS.slash) (list_ascii_of_string sl).
Hypothesis Hpre : pre = "" \/ exists pre', pre = pre' ++ "/".

(** [path.basename] of a decomposed path is its last component. *)
Lemma basename_decomposed : NodePath.basename (pre ++ comp ++ sl) = comp.
Proof.
  unfold NodePath.basename.
  rewrite rev_list_of_decomposed.
  rewrite basename_loop_slashes by (try apply Forall_rev; easy).
  destruct (basename_loop_decomposed (list_ascii_of_string pre)
              (list_ascii_of_string comp)) as [Hs He];
    [now apply list_of_nonempty | exact Hns | now apply list_of_ends_with_slash |].
  cbv zeta in Hs, He. rewrite Hs, He.
  destruct (Z.eqb_spec (Z.of_nat (List.length (list_ascii_of_string pre)
                                  + List.length (list_ascii_of_string comp))) (-1));
    [lia|].
  rewrite !length_list_of, Nat2Z.inj_add. apply slice_middle.
Qed.

(** The format of a decomposed key is the extension of its last component. *)
Lemma format_of_decomposed : format_of (pre ++ comp ++ sl) = Spec.extension comp.
Proof.
  unfold format_of, NodePath.extname.
  rewrite rev_list_of_decomposed.
  rewrite extname_loop_slashes by (try apply Forall_rev; easy).
  destruct (extname_loop_decomposed (list_ascii_of_string pre)
              (list_ascii_of_string comp)) as (st' & Hinv & He & Hsd & Hpd & Hsp);
    [now apply list_of_nonempty | exact Hns | now apply list_of_ends_with_slash |].
  rewrite He, Hsd, Hpd, Hsp. clear He Hsd Hpd Hsp.
  rewrite !length_list_of, Nat2Z.inj_add in *.
  fold (JS.len pre) in *. fold (JS.len comp) in *.
  pose proof (len_nonneg pre) as Hlp. pose proof (len_nonneg comp) as Hlc.
  destruct Hinv as (He & _ & _ & Hd). rewrite He.
  destruct Hd as [(Hno & Hsd & Hpd) | (rv & ru & Hdone & Hno & Hsd & Hpd0 & Hpd1)].
  - rewrite Hsd. change (-1 =? -1) with true. cbn [orb].
    rewrite format_of_empty_extname.
    unfold Spec.extension. rewrite lastIndexOf_absent; [reflexivity|].
    intro H. apply Hno. now apply in_rev in H.
  - apply split_at_last_dot in Hdone.
    set (u := string_of_list_ascii (rev ru)) in *.
    set (v := string_of_list_ascii (rev rv)) in *.
    assert (Hv : ~ In JS.dot (list_ascii_of_string v)).
    { unfold v. rewrite list_ascii_of_string_of_list_ascii. intro H.
      apply Hno. now apply in_rev. }
    assert (Hlv : JS.len v = Z.of_nat (List.length rv)).
    { unfold v, JS.len. now rewrite <- length_list_of,
        list_ascii_of_string_of_list_ascii, length_rev. }
    assert (Hlen : JS.len comp = JS.len u + 1 + JS.len v).
    { rewrite Hdone, len_append, len_cons. lia. }
    pose proof (len_nonneg u) as Hlu. pose proof (len_nonneg v) as Hlvn.
    assert (Hext : Spec.extension comp = if JS.len u =? 0 then "" else v).
    { unfold Spec.extension. rewrite Hdone. rewrite lastIndexOf_last by exact Hv.
      destruct (Z.eqb_spec (JS.len u) 0) as [-> | Hu]; [reflexivity|].
      destruct (Z.leb_spec (JS.len u) 0); [lia|].
      change (String JS.dot v) with ("." ++ v). rewrite <- append_assoc.
      replace (JS.len u + 1) with (JS.len (u ++ ".")) by (rewrite len_append; reflexivity).
      apply substring_from_append. }
    rewrite Hext, Hsd, <- Hlv.
    destruct (Z.eqb_spec (JS.len pre + JS.len comp - JS.len v - 1) (-1)); [lia|].
    destruct (Z.eqb_spec (JS.len pre + JS.len comp) (-1)); [lia|].
    cbn [orb].
    destruct ru as [|r ru'].
    + rewrite Hpd0 by reflexivity. change (0 =? 0) with true. cbn [orb].
      rewrite format_of_empty_extname.
      assert (Hu : JS.len u = 0) by reflexivity.
      now rewrite Hu.
    + assert (Hu : JS.len u <> 0).
      { unfold u, JS.len. rewrite <- length_list_of,
          list_ascii_of_string_of_list_ascii, length_rev. cbn. lia. }
      destruct (Z.eqb_spec (JS.len u) 0); [contradiction|].
      assert (Hz : (NodePath.ex_preDotState st' =? 0) = false).
      { destruct Hpd1 as [-> | ->]; easy. }
      rewrite Hz. cbn [orb].
      match goal with |- JS.substring_from (if ?b then _ else _) 1 = _ =>
        destruct b eqn:Hb end.
      * rewrite format_of_empty_extname.
        apply andb_prop in Hb. destruct Hb as [Hb _].
        apply andb_prop in Hb. destruct Hb as [_ Hb].
        apply Z.eqb_eq in Hb. symmetry. apply len_zero. lia.
      * rewrite Hdone.
        replace (pre ++ (u ++ String JS.dot v) ++ sl)
          with ((pre ++ u) ++ ("." ++ v) ++ sl)
          by (now rewrite !append_assoc).
        replace (JS.len pre + JS.len (u ++ String JS.dot v) - JS.len v - 1)
          with (JS.len (pre ++ u)).
        2:{ rewrite !len_append, len_cons. lia. }
        replace (JS.len pre + JS.len (u ++ String JS.dot v))
          with (JS.len (pre ++ u) + JS.len ("." ++ v))
          by (rewrite !len_append, !len_cons; change (JS.len "") with 0; lia).
        rewrite slice_middle.
        change 1 with (JS.len "."). apply substring_from_append.
Qed.

End DecomposedPath.

Lemma format_of_slashes (s : string) :
  Forall (eq JS.slash) (list_ascii_of_string s) -> format_of s = "".
Proof.
  intro H. unfold format_of, NodePath.extname.
  rewrite <- (app_nil_r (rev (list_ascii_of_string s))).
  rewrite extname_loop_slashes by (try apply Forall_rev; easy).
  reflexivity.
Qed.

(** The format of a key is the extension of its basename: what follows the
    basename's last dot, unless there is no dot or the only one leads. *)
Lemma format_of_basename (key : string) :
  format_of key = Spec.extension (NodePath.basename key).
Proof.
  destruct (path_decomposition key) as [Hall | (pre & comp & sl & -> & Hne & Hns & Hsl & Hpre)].
  - now rewrite format_of_slashes, basename_slashes.
  - now rewrite format_of_decomposed, basename_decomposed.
Qed.


(* ===================================================================== *)
(** * Splitting and joining *)
(* ===================================================================== *)

Lemma split_not_nil (c : ascii) (s : string) : JS.split c s <> [].
Proof.
  destruct s as [|a s]; cbn; [discriminate|].
  destruct (Ascii.eqb a c); [discriminate|].
  destruct (JS.split c s); discriminate.
Qed.

Lemma split_absent (c : ascii) (s : string) :
  ~ In c (list_ascii_of_string s) -> JS.split c s = [s].
Proof.
  induction s as [|a s IH]; intro H; [reflexivity|].
  cbn [JS.split]. destruct (Ascii.eqb_spec a c) as [-> | _].
  - exfalso. apply H. now left.
  - rewrite IH by (intro; apply H; now right). reflexivity.
Qed.

Lemma split_append (c : ascii) (a b : string) :
  JS.split c (a ++ String c b) = (JS.split c a ++ JS.split c b)%list.
Proof.
  induction a as [|x a IH].
  - cbn. now rewrite Ascii.eqb_refl.
  - cbn [append JS.split]. destruct (Ascii.eqb x c); rewrite IH; [reflexivity|].
    destruct (JS.split c a) as [|h t] eqn:Ha; [|reflexivity].
    now apply split_not_nil in Ha.
Qed.

Lemma join_snoc (sep : string) (l : list string) (x : string) :
  l <> [] -> JS.join sep (l ++ [x]) = JS.join sep l ++ sep ++ x.
Proof.
  unfold JS.join. induction l as [|a l IH]; intro H; [contradiction|].
  destruct l as [|b l]; [reflexivity|].
  change (String.concat sep ((a :: b :: l) ++ [x]))
    with (a ++ sep ++ String.concat sep ((b :: l) ++ [x])).
  rewrite IH by discriminate.
  change (String.concat sep (a :: b :: l)) with (a ++ sep ++ String.concat sep (b :: l)).
  now rewrite !append_assoc.
Qed.

(* ===================================================================== *)
(** * Folder titles *)
(* ===================================================================== *)

(** A prefix with a single trailing slash is a last segment, what precedes
    it, and the slash. *)
Lemma single_trailing_slash_decomposed (p : string) :
  Spec.single_trailing_slash p = true ->
  exists pre seg,
    p = pre ++ seg ++ "/" /\ seg <> "" /\
    ~ In JS.slash (list_ascii_of_string seg) /\
    (pre = "" \/ exists pre', pre = pre' ++ "/").
Proof.
  unfold Spec.single_trailing_slash. intro H.
  destruct (rev (list_ascii_of_string p)) as [|c1 [|c2 r]] eqn:Hr; try discriminate.
  apply andb_prop in H. destruct H as [H1 H2].
  apply Ascii.eqb_eq in H1. subst c1.
  apply negb_true_iff, Ascii.eqb_neq in H2.
  set (d := string_of_list_ascii (rev (c2 :: r))).
  assert (Hd : rev (list_ascii_of_string d) = c2 :: r).
  { unfold d. now rewrite list_ascii_of_string_of_list_ascii, rev_involutive. }
  assert (Hp : p = d ++ "/").
  { apply list_of_inj. rewrite list_of_append. unfold d.
    rewrite list_ascii_of_string_of_list_ascii.
    apply (f_equal (@rev ascii)) in Hr. rewrite rev_involutive in Hr.
    rewrite Hr. reflexivity. }
  destruct (path_decomposition d)
    as [Hall | (pre & comp & sl & Hdec & Hne & Hns & Hsl & Hpre)].
  - exfalso. apply H2. apply Forall_rev in Hall. rewrite Hd in Hall.
    now inversion Hall.
  - assert (Hsl' : sl = "").
    { destruct sl as [|x sl']; [reflexivity | exfalso].
      rewrite Hdec, rev_list_of_decomposed in Hd.
      apply Forall_rev in Hsl.
      destruct (rev (list_ascii_of_string (String x sl'))) as [|y l] eqn:Hy.
      - apply (f_equal (@List.length ascii)) in Hy.
        rewrite length_rev in Hy. discriminate.
      - cbn in Hd. injection Hd as Hy2 _. subst y.
        inversion Hsl. now apply H2. }
    subst sl. rewrite append_nil_r in Hdec.
    exists pre, comp. rewrite Hp, Hdec, append_assoc. now repeat split.
Qed.

(** A prefix cut into what precedes its last segment, that segment and the
    closing slash. *)
Section LastSegment.

Variables pre seg : string.
Hypothesis Hne : seg <> "".
Hypothesis Hns : ~ In JS.slash (list_ascii_of_string seg).
Hypothesis Hpre : pre = "" \/ exists pre', pre = pre' ++ "/".

Lemma last_nonempty_segment_decomposed :
  Spec.last_nonempty_segment (pre ++ seg ++ "/") = seg.
Proof.
  assert (Htail : JS.split JS.slash (seg ++ "/") = [seg; ""]).
  { change (seg ++ "/") with (seg ++ String JS.slash "").
    rewrite split_append, split_absent by exact Hns. reflexivity. }
  assert (Hf : filter (fun s => negb (String.eqb s "")) [seg; ""] = [seg]).
  { cbn. destruct (String.eqb_spec seg ""); [contradiction | reflexivity]. }
  unfold Spec.last_nonempty_segment, Spec.nonempty_segments.
  destruct Hpre as [-> | (pre' & ->)].
  - cbn [append]. now rewrite Htail, Hf.
  - rewrite append_assoc. change ("/" ++ seg ++ "/") with (String JS.slash (seg ++ "/")).
    rewrite split_append, Htail, filter_app, Hf. apply last_last.
Qed.

Lemma folder_title_decomposed :
  folder_of_prefix (pre ++ seg ++ "/")
  = FolderEntry {| folder_id := pre ++ seg ++ "/"; folder_title := seg |}.
Proof.
  unfold folder_of_prefix.
  assert (Hdos : JS.substring (pre ++ seg ++ "/") 0 (JS.len (pre ++ seg ++ "/") - 1)
                 = pre ++ seg).
  { rewrite <- append_assoc.
    replace (JS.len ((pre ++ seg) ++ "/") - 1) with (JS.len (pre ++ seg))
      by (rewrite (len_append (pre ++ seg)); change (JS.len "/") with 1; lia).
    apply substring_prefix. }
  rewrite Hdos. do 2 f_equal.
  destruct Hpre as [-> | (pre' & ->)].
  - cbn [append]. rewrite lastIndexOf_absent by exact Hns.
    change (-1 + 1) with (JS.len ""). apply (substring_from_append "" seg).
  - rewrite append_assoc. change ("/" ++ seg) with (String JS.slash seg).
    rewrite lastIndexOf_last by exact Hns.
    change (String JS.slash seg) with ("/" ++ seg). rewrite <- append_assoc.
    replace (JS.len pre' + 1) with (JS.len (pre' ++ "/"))
      by (rewrite len_append; reflexivity).
    apply substring_from_append.
Qed.

End LastSegment.

(** For a prefix with a single trailing slash the folder's title is the
    last non-empty segment. *)
Lemma folder_of_prefix_single_slash (p : string) :
  Spec.single_trailing_slash p = true ->
  folder_of_prefix p = Spec.folder_entry p.
Proof.
  intro H. destruct (single_trailing_slash_decomposed p H)
    as (pre & seg & -> & Hne & Hns & Hpre).
  unfold Spec.folder_entry.
  now rewrite folder_title_decomposed, last_nonempty_segment_decomposed.
Qed.

Lemma folder_of_prefix_id (p : string) : entry_id (folder_of_prefix p) = p.
Proof. reflexivity. Qed.


(* ===================================================================== *)
(** * The breadcrumb *)
(* ===================================================================== *)

Lemma firstn_snoc {A : Type} (done : list A) (x : A) (rest : list A) :
  firstn (List.length done + 1) (done ++ x :: rest) = (done ++ [x])%list.
Proof.
  induction done as [|a done IH]; [reflexivity|].
  cbn [List.length Nat.add app firstn]. now rewrite IH.
Qed.

(** The id of the folder a list of segments leads to; the root is [""]. *)
Lemma folder_id_snoc (done : list string) (x : string) :
  JS.join "/" (done ++ [x]) ++ "/"
  = match done with [] => "" | _ => JS.join "/" done ++ "/" end ++ x ++ "/".
Proof.
  destruct done as [|a done]; [reflexivity|].
  rewrite join_snoc by discriminate. now rewrite !append_assoc.
Qed.

Lemma mapi_breadcrumb (all : list string) (l : list string) :
  forall done : list string,
    all = (done ++ l)%list ->
    JS.mapi_from
      (fun fold idx =>
         {| folder_id := JS.join "/" (firstn (idx + 1) all) ++ "/";
            folder_title := fold |})
      (List.length done) l
    = Spec.breadcrumb_from
        match done with [] => "" | _ => JS.join "/" done ++ "/" end l.
Proof.
  induction l as [|x l IH]; intros done Hall; [reflexivity|].
  cbn [JS.mapi_from Spec.breadcrumb_from].
  rewrite Hall at 1. rewrite firstn_snoc, folder_id_snoc. f_equal.
  replace (S (List.length done)) with (List.length (done ++ [x])%list)
    by (rewrite length_app; cbn; lia).
  rewrite (IH (done ++ [x])%list) by (now rewrite <- app_assoc).
  rewrite folder_id_snoc. now destruct done.
Qed.

(** The path the code computes is the breadcrumb of the current folder. *)
Lemma foldPath_breadcrumb (p : Params.t) :
  foldPath p = Spec.breadcrumb (Params.currentFolderId p).
Proof.
  unfold foldPath, JS.mapi, Spec.breadcrumb.
  apply (mapi_breadcrumb (foldersPath p) (foldersPath p) []). reflexivity.
Qed.

Lemma nth_error_mapi_from {A B : Type} (f : A -> nat -> B) (l : list A) :
  forall (k i : nat) (x : A),
    nth_error l i = Some x ->
    nth_error (JS.mapi_from f k l) i = Some (f x (k + i)%nat).
Proof.
  induction l as [|a l IH]; intros k i x H; [now destruct i|].
  destruct i as [|i]; cbn in *.
  - injection H as ->. now rewrite Nat.add_0_r.
  - rewrite (IH (S k) i x H). f_equal. f_equal. lia.
Qed.

Lemma length_mapi_from {A B : Type} (f : A -> nat -> B) (l : list A) (k : nat) :
  List.length (JS.mapi_from f k l) = List.length l.
Proof. revert k. induction l as [|a l IH]; intro k; cbn; [reflexivity | now rewrite IH]. Qed.

(* ===================================================================== *)
(** * Running the operations *)
(* ===================================================================== *)

Lemma truthy_nonempty (o : option string) :
  JS.truthy o = true <-> exists s, o = Some s /\ s <> "".
Proof.
  destruct o as [s|]; cbn.
  - destruct (String.eqb_spec s ""); split; intro H; try easy.
    + destruct H as (s' & [= <-] & Hs). contradiction.
    + now exists s.
  - split; [discriminate | now intros (s & H & _)].
Qed.

Lemma set_currentFolderId_truthy (p : Params.t) :
  JS.truthy (Params.currentFolderId p) = true ->
  Params.set_currentFolderId (str (Params.currentFolderId p)) p = p.
Proof. destruct p as [[c|] q]; cbn; [reflexivity | discriminate]. Qed.

Lemma set_currentFolderId_falsy (p : Params.t) :
  JS.truthy (Params.currentFolderId p) = false ->
  Params.set_currentFolderId "" p
  = Params.set_currentFolderId (str (Params.currentFolderId p)) p.
Proof.
  destruct p as [[c|] q]; cbn; [|reflexivity].
  destruct (String.eqb_spec c ""); [now subst | discriminate].
Qed.

Lemma with_params_id (ctx : ListResourcesContext.t) :
  ListResourcesContext.with_params (fun p => p) ctx = ctx.
Proof. now destruct ctx. Qed.

(** Without a usable secret the listing is refused at once. *)
Lemma listResources_unauthenticated (w : World) (ctx : ListResourcesContext.t) :
  JS.truthy (Secrets.serviceAccount (ListResourcesContext.secrets ctx)) = false ->
  listResources w ctx = (Rejected {| message := MSG_UNAUTHENTICATED |}, ctx, []).
Proof.
  intro H. unfold listResources, async, listResources_body, bind, get.
  rewrite H. reflexivity.
Qed.

(** When the client cannot be built, nothing else happens. *)
Lemma listResources_no_client (w : World) (ctx : ListResourcesContext.t) (e : Error) :
  JS.truthy (Secrets.serviceAccount (ListResourcesContext.secrets ctx)) = true ->
  new_Storage w (str (Secrets.serviceAccount (ListResourcesContext.secrets ctx))) = Throw e ->
  listResources w ctx
  = (Rejected {| message := MSG_LISTING_FAILED |}, ctx,
     [EvNewStorage (str (Secrets.serviceAccount (ListResourcesContext.secrets ctx)));
      EvConsoleError "Error listing resources:"]).
Proof.
  intros Hs Hn. unfold listResources, async, listResources_body, bind, get,
    try_catch, call, emit, throw.
  rewrite Hs. cbn [negb]. rewrite Hn. reflexivity.
Qed.

(** With a secret and a client: the folder id is normalised, the backend is
    asked once, and its answer decides. *)
Lemma listResources_run (w : World) (ctx : ListResourcesContext.t) :
  let secret := Secrets.serviceAccount (ListResourcesContext.secrets ctx) in
  let bucket := Config.bucketName (ListResourcesContext.catalogConfig ctx) in
  let cur := str (Params.currentFolderId (ListResourcesContext.params ctx)) in
  let p := Params.set_currentFolderId cur (ListResourcesContext.params ctx) in
  let ctx' := ListResourcesContext.with_params (Params.set_currentFolderId cur) ctx in
  JS.truthy secret = true ->
  (exists u, new_Storage w (str secret) = Normal u) ->
  listResources w ctx
  = match bucket_getFiles w bucket (listing_options p) with
    | Normal (files, Some response) =>
        let folders :=
          foldersFromPrefixes
            match prefixes response with Some l => l | None => [] end in
        (Fulfilled
           {| count := (List.length (resFiles p files) + List.length folders)%nat;
              results := (resFiles p files ++ folders)%list;
              path := foldPath p |},
         ctx',
         [EvNewStorage (str secret); EvGetFiles bucket (listing_options p)])
    | _ =>
        (Rejected {| message := MSG_LISTING_FAILED |}, ctx',
         [EvNewStorage (str secret); EvGetFiles bucket (listing_options p);
          EvConsoleError "Error listing resources:"])
    end.
Proof.
  destruct ctx as [cfg sec [cur0 q0]].
  cbn [ListResourcesContext.secrets ListResourcesContext.catalogConfig
       ListResourcesContext.params Params.currentFolderId].
  intros Hs (u & Hn).
  unfold listResources, async, listResources_body, bind, get, try_catch, call,
    emit, throw, modify, ret.
  cbn [ListResourcesContext.secrets ListResourcesContext.catalogConfig
       ListResourcesContext.params Params.currentFolderId].
  rewrite Hs. cbn [negb]. rewrite Hn.
  assert (Hcases : (JS.truthy cur0 = true /\ cur0 = Some (str cur0)) \/
                   (JS.truthy cur0 = false /\ str cur0 = "")).
  { destruct cur0 as [c|]; cbn; [|now right].
    destruct (String.eqb_spec c ""); [right; now subst | now left]. }
  destruct Hcases as [[Hc Hcur] | [Hc Hcur]]; rewrite Hc; cbn [negb].
  - unfold ListResourcesContext.with_params, Params.set_currentFolderId.
    cbn [ListResourcesContext.secrets ListResourcesContext.catalogConfig
         ListResourcesContext.params Params.currentFolderId Params.q].
    rewrite <- Hcur.
    destruct (bucket_getFiles w (Config.bucketName cfg)
                (listing_options {| Params.currentFolderId := cur0; Params.q := q0 |}))
      as [[files [response|]]|e]; reflexivity.
  - unfold ListResourcesContext.with_params, Params.set_currentFolderId.
    cbn [ListResourcesContext.secrets ListResourcesContext.catalogConfig
         ListResourcesContext.params Params.currentFolderId Params.q].
    rewrite Hcur.
    destruct (bucket_getFiles w (Config.bucketName cfg)
                (listing_options {| Params.currentFolderId := Some ""; Params.q := q0 |}))
      as [[files [response|]]|e]; reflexivity.
Qed.


(* ===================================================================== *)
(** * prepare *)
(* ===================================================================== *)

Lemma truthy_some (s : string) : s <> "" -> JS.truthy (Some s) = true.
Proof. intro H. cbn. now destruct (String.eqb_spec s ""). Qed.

Lemma strict_eq_some_neq (s t : string) : s <> t -> JS.strict_eq (Some s) t = false.
Proof. intro H. cbn. now destruct (String.eqb_spec s t). Qed.

Lemma probe_succeeds_inv (w : World) (secret bucket : option string) :
  probe_succeeds w secret bucket = true ->
  JS.truthy secret = true /\ JS.truthy bucket = true /\
  (exists u, new_Storage w (str secret) = Normal u) /\
  (exists a, bucket_getFiles w bucket probe_options = Normal a).
Proof.
  unfold probe_succeeds. intro H.
  apply andb_prop in H. destruct H as [H H3].
  apply andb_prop in H. destruct H as [H1 H2].
  destruct (new_Storage w (str secret)) as [u|e]; [|discriminate].
  destruct (bucket_getFiles w bucket probe_options) as [a|e]; [|discriminate].
  repeat split; try assumption; eauto.
Qed.

(** Unfolding [prepare] down to the collaborators' answers. *)
Ltac prepare_fields :=
  cbn [PrepareContext.catalogConfig PrepareContext.secrets PrepareContext.capabilities
       Config.serviceAccount Config.bucketName Secrets.serviceAccount
       negb andb str app fst snd settled final trace].

Ltac run_prepare :=
  unfold prepare, async, prepare_body, bind, get, try_catch, call, emit, throw,
    modify, ret, PrepareContext.with_secrets, PrepareContext.with_catalogConfig,
    Config.set_serviceAccount, Secrets.set_serviceAccount,
    Secrets.delete_serviceAccount;
  prepare_fields.

(** Rotation: a fresh credential is moved to the secrets and masked. *)
Lemma prepare_rotation (w : World) (ctx : PrepareContext.t) (V : string) :
  Config.serviceAccount (PrepareContext.catalogConfig ctx) = Some V ->
  V <> "" -> V <> MASK ->
  probe_succeeds w (Some V) (Config.bucketName (PrepareContext.catalogConfig ctx)) = true ->
  let ctx' :=
    {| PrepareContext.catalogConfig :=
         {| Config.bucketName := Config.bucketName (PrepareContext.catalogConfig ctx);
            Config.serviceAccount := Some MASK |};
       PrepareContext.capabilities := PrepareContext.capabilities ctx;
       PrepareContext.secrets := {| Secrets.serviceAccount := Some V |} |} in
  prepare w ctx
  = (Fulfilled ctx', ctx',
     [EvNewStorage V;
      EvGetFiles (Config.bucketName (PrepareContext.catalogConfig ctx)) probe_options]).
Proof.
  destruct ctx as [[bucket account] caps [stored]]. cbn. intros -> HV HM Hp.
  apply probe_succeeds_inv in Hp. destruct Hp as (_ & Hb & (u & Hn) & (a & Hg)).
  cbn [str] in Hn. run_prepare.
  rewrite (strict_eq_some_neq V MASK HM), !(truthy_some V HV). prepare_fields.
  rewrite (truthy_some V HV), Hb. prepare_fields. rewrite Hn, Hg. reflexivity.
Qed.

(** The three ways the credential step leaves the objects, and then the
    gate: [prepare] succeeds only through the probe. *)
Lemma prepare_fulfilled (w : World) (ctx ctx' : PrepareContext.t) :
  settled (prepare w ctx) = Fulfilled ctx' ->
  final (prepare w ctx) = ctx' /\
  probe_succeeds w (Secrets.serviceAccount (PrepareContext.secrets ctx'))
    (Config.bucketName (PrepareContext.catalogConfig ctx')) = true /\
  (Config.serviceAccount (PrepareContext.catalogConfig ctx') = Some MASK \/
   Config.serviceAccount (PrepareContext.catalogConfig ctx') = None).
Proof.
  destruct ctx as [[bucket account] caps [stored]]. run_prepare.
  unfold probe_succeeds.
  destruct (JS.truthy account && negb (JS.strict_eq account MASK)) eqn:Hrot.
  - prepare_fields.
    destruct (JS.truthy account) eqn:Ha; [|discriminate]. prepare_fields.
    destruct (JS.truthy bucket) eqn:Hb; prepare_fields; [|discriminate].
    destruct (new_Storage w (str account)) as [u|e] eqn:Hn; prepare_fields;
      [|discriminate].
    destruct (bucket_getFiles w bucket probe_options) as [a|e] eqn:Hg; prepare_fields;
      [|discriminate].
    intros [= <-]. prepare_fields. rewrite Ha, Hb, Hn, Hg. prepare_fields. auto.
  - destruct (JS.truthy stored && JS.strict_eq account "") eqn:Hrem.
    + prepare_fields. cbn [JS.truthy]. prepare_fields. discriminate.
    + prepare_fields.
      destruct (JS.truthy stored) eqn:Hs; prepare_fields; [|discriminate].
      destruct (JS.truthy bucket) eqn:Hb; prepare_fields; [|discriminate].
      destruct (new_Storage w (str stored)) as [u|e] eqn:Hn; prepare_fields;
        [|discriminate].
      destruct (bucket_getFiles w bucket probe_options) as [a|e] eqn:Hg; prepare_fields;
        [|discriminate].
      intros [= <-]. prepare_fields. rewrite Hs, Hb, Hn, Hg. prepare_fields.
      repeat split.
      destruct account as [v|]; [left | now right].
      cbn in Hrot, Hrem. 
      destruct (String.eqb_spec v ""); cbn in *; [discriminate|].
      destruct (String.eqb_spec v MASK); cbn in *; [now subst | discriminate].
Qed.


(** Removal: an empty configured account deletes the stored credential, and
    the gate then refuses. *)
Lemma prepare_removal (w : World) (ctx : PrepareContext.t) :
  JS.truthy (Secrets.serviceAccount (PrepareContext.secrets ctx)) = true ->
  Config.serviceAccount (PrepareContext.catalogConfig ctx) = Some "" ->
  prepare w ctx
  = (Rejected {| message := MSG_REQUIRED |},
     {| PrepareContext.catalogConfig := PrepareContext.catalogConfig ctx;
        PrepareContext.capabilities := PrepareContext.capabilities ctx;
        PrepareContext.secrets := {| Secrets.serviceAccount := None |} |},
     []).
Proof.
  destruct ctx as [[bucket account] caps [stored]]. prepare_fields.
  intros Hs ->. run_prepare. rewrite Hs. reflexivity.
Qed.

(** No-op: with the mask in place the objects stay as they are. *)
Lemma prepare_masked (w : World) (ctx : PrepareContext.t) :
  Config.serviceAccount (PrepareContext.catalogConfig ctx) = Some MASK ->
  probe_succeeds w (Secrets.serviceAccount (PrepareContext.secrets ctx))
    (Config.bucketName (PrepareContext.catalogConfig ctx)) = true ->
  prepare w ctx
  = (Fulfilled ctx, ctx,
     [EvNewStorage (str (Secrets.serviceAccount (PrepareContext.secrets ctx)));
      EvGetFiles (Config.bucketName (PrepareContext.catalogConfig ctx)) probe_options]).
Proof.
  destruct ctx as [[bucket account] caps [stored]]. prepare_fields.
  intros -> Hp. apply probe_succeeds_inv in Hp.
  destruct Hp as (Hs & Hb & (u & Hn) & (a & Hg)).
  run_prepare.
  change (JS.strict_eq (Some MASK) MASK) with true.
  change (JS.strict_eq (Some MASK) "") with false.
  change (JS.truthy (Some MASK)) with true.
  rewrite !Hs. prepare_fields. rewrite Hs, Hb. prepare_fields.
  rewrite Hn, Hg. reflexivity.
Qed.

(** A rotation is not undone when the gate refuses. *)
Lemma prepare_rotation_refused (w : World) (ctx : PrepareContext.t) (V : string) :
  Config.serviceAccount (PrepareContext.catalogConfig ctx) = Some V ->
  V <> "" -> V <> MASK ->
  JS.truthy (Config.bucketName (PrepareContext.catalogConfig ctx)) = false ->
  prepare w ctx
  = (Rejected {| message := MSG_REQUIRED |},
     {| PrepareContext.catalogConfig :=
          {| Config.bucketName := Config.bucketName (PrepareContext.catalogConfig ctx);
             Config.serviceAccount := Some MASK |};
        PrepareContext.capabilities := PrepareContext.capabilities ctx;
        PrepareContext.secrets := {| Secrets.serviceAccount := Some V |} |},
     []).
Proof.
  destruct ctx as [[bucket account] caps [stored]]. prepare_fields.
  intros -> HV HM Hb. run_prepare.
  rewrite (strict_eq_some_neq V MASK HM), !(truthy_some V HV). prepare_fields.
  rewrite (truthy_some V HV), Hb. reflexivity.
Qed.

(* ===================================================================== *)
(** * getResource *)
(* ===================================================================== *)

Ltac download_fields :=
  cbn [GetResourceContext.catalogConfig GetResourceContext.secrets
       GetResourceContext.resourceId GetResourceContext.tmpDir GetResourceContext.log
       negb app fst snd settled final trace].

Ltac run_getResource :=
  unfold getResource, async_returning_promise, getResource_body, bind, get,
    try_catch, call, emit, attempt, unawaited, throw, ret;
  download_fields.

Lemma getResource_unauthenticated (w : World) (ctx : GetResourceContext.t) :
  JS.truthy (Secrets.serviceAccount (GetResourceContext.secrets ctx)) = false ->
  getResource w ctx = (Rejected {| message := MSG_UNAUTHENTICATED |}, ctx, []).
Proof. intro H. run_getResource. rewrite H. reflexivity. Qed.

(** The download of the test suite: the object is streamed in two chunks. *)
Example getResource_sample :
  getResource Sample.root_world (Sample.download Sample.with_secret "folder1/file1.csv")
  = (Fulfilled {| res_id := "folder1/file1.csv"; res_title := "file1";
                  res_filePath := "/tmp/file1.csv"; res_format := "csv" |},
     Sample.download Sample.with_secret "folder1/file1.csv",
     [EvNewStorage Sample.secret;
      EvLogStep "Téléchargement du fichier : file1.csv";
      EvGetMetadata (Some "test-bucket") "folder1/file1.csv";
      EvLogTask "download folder1/file1.csv" "Progression" (Some 1000);
      EvCreateReadStream (Some "test-bucket") "folder1/file1.csv";
      EvCreateWriteStream "/tmp/file1.csv";
      EvLogProgress "download folder1/file1.csv" 10;
      EvLogProgress "download folder1/file1.csv" 30]).
Proof. reflexivity. Qed.

(** A listing is refused for want of a secret, or fails with the
    ListingFailed message whatever went wrong. *)
Lemma listResources_rejection_cases (w : World) (ctx : ListResourcesContext.t) (e : Error) :
  settled (listResources w ctx) = Rejected e ->
  (JS.truthy (Secrets.serviceAccount (ListResourcesContext.secrets ctx)) = false /\
   e = {| message := MSG_UNAUTHENTICATED |}) \/
  (JS.truthy (Secrets.serviceAccount (ListResourcesContext.secrets ctx)) = true /\
   e = {| message := MSG_LISTING_FAILED |}).
Proof.
  set (secret := Secrets.serviceAccount (ListResourcesContext.secrets ctx)).
  intro H. destruct (JS.truthy secret) eqn:Hs.
  - right. split; [reflexivity|].
    destruct (new_Storage w (str secret)) as [u|e0] eqn:Hn.
    + rewrite (listResources_run w ctx Hs (ex_intro _ u Hn)) in H.
      destruct (bucket_getFiles w _ _) as [[files [response|]]|e1];
        cbn in H; congruence.
    + rewrite (listResources_no_client w ctx e0 Hs Hn) in H. cbn in H. congruence.
  - left. split; [reflexivity|].
    rewrite (listResources_unauthenticated w ctx Hs) in H. cbn in H. congruence.
Qed.

(** A listing that is fulfilled went through the secret check, the client
    and the backend. *)
Lemma listResources_fulfilled (w : World) (ctx : ListResourcesContext.t) (r : ListResult) :
  settled (listResources w ctx) = Fulfilled r ->
  let secret := Secrets.serviceAccount (ListResourcesContext.secrets ctx) in
  let bucket := Config.bucketName (ListResourcesContext.catalogConfig ctx) in
  let cur := str (Params.currentFolderId (ListResourcesContext.params ctx)) in
  let p := Params.set_currentFolderId cur (ListResourcesContext.params ctx) in
  JS.truthy secret = true /\
  (exists u, new_Storage w (str secret) = Normal u) /\
  exists files response,
    bucket_getFiles w bucket (listing_options p) = Normal (files, Some response) /\
    let folders :=
      foldersFromPrefixes match prefixes response with Some l => l | None => [] end in
    r = {| count := (List.length (resFiles p files) + List.length folders)%nat;
           results := (resFiles p files ++ folders)%list;
           path := foldPath p |}.
Proof.
  intros H secret bucket cur p.
  destruct (JS.truthy secret) eqn:Hs.
  2:{ rewrite (listResources_unauthenticated w ctx Hs) in H. discriminate. }
  destruct (new_Storage w (str secret)) as [u|e] eqn:Hn.
  2:{ rewrite (listResources_no_client w ctx e Hs Hn) in H. discriminate. }
  rewrite (listResources_run w ctx Hs (ex_intro _ u Hn)) in H.
  fold bucket cur p in H.
  split; [reflexivity|]. split; [now exists u|].
  destruct (bucket_getFiles w bucket (listing_options p)) as [[files [response|]]|e];
    try discriminate.
  exists files, response. split; [reflexivity|].
  cbn in H. now injection H as <-.
Qed.

Lemma Forall2_map_r {A B : Type} (R : A -> B -> Prop) (f : A -> B) (l : list A) :
  (forall x, In x l -> R x (f x)) -> Forall2 R l (map f l).
Proof.
  induction l as [|a l IH]; intro H; cbn; constructor.
  - apply H. now left.
  - apply IH. intros x Hx. apply H. now right.
Qed.

Lemma resource_of_file_spec (file : File) :
  Spec.resource_for file (resource_of_file file).
Proof.
  unfold Spec.resource_for, resource_of_file. now rewrite format_of_basename.
Qed.

Lemma folder_of_prefix_spec (p : string) :
  Spec.folder_for p (folder_of_prefix p).
Proof.
  unfold Spec.folder_for.
  exists (JS.substring_from (JS.substring p 0 (JS.len p - 1))
            (JS.lastIndexOf JS.slash (JS.substring p 0 (JS.len p - 1)) + 1)).
  split; [reflexivity|]. intro H.
  pose proof (folder_of_prefix_single_slash p H) as Hf.
  unfold folder_of_prefix, Spec.folder_entry in Hf. now injection Hf.
Qed.

Lemma resFiles_filter (p : Params.t) (cur : string) (files : list File) :
  Params.currentFolderId p = Some cur ->
  resFiles p files
  = map resource_of_file (filter (fun f => negb (String.eqb cur (name f))) files).
Proof. intro H. unfold resFiles. now rewrite H. Qed.

(* ===================================================================== *)
(** * C4: the listing *)
(* ===================================================================== *)

(** The root listing of the test suite: the prefix ["/"] is left out. *)
Example listResources_root_test :
  settled (listResources Sample.test_world (Sample.listing Sample.with_secret None None))
  = Fulfilled Sample.root_result.
Proof. reflexivity. Qed.

(** C4, as stated, fails on the code.  In the folder ["docs/"], a backend
    answer made of the objects ["docs/"] (the folder's own placeholder) and
    ["docs/.env"] and of the prefix ["docs/a//"] is listed as two entries:
    the placeholder is left out, the dot-file has an empty format and the
    folder an empty title, where the statement describes three entries, the
    format ["env"] and the title ["a"]. *)
Lemma C4_counterexample :
  settled (listResources Sample.docs_world
             (Sample.listing Sample.with_secret (Some "docs/") None))
  = Fulfilled Sample.docs_result
  /\ count Sample.docs_result = 2%nat
  /\ results Sample.docs_result
     = [ResourceEntry "docs/.env" ".env" (Some (JsNumber 12)) "" (Some "text/plain");
        FolderEntry {| folder_id := "docs/a//"; folder_title := "" |}]
  /\ Spec.stated_results Sample.docs_files Sample.docs_prefixes
     = [ResourceEntry "docs/" "docs" (Some (JsNumber 0)) "" (Some "text/plain");
        ResourceEntry "docs/.env" ".env" (Some (JsNumber 12)) "env" (Some "text/plain");
        FolderEntry {| folder_id := "docs/a//"; folder_title := "a" |}]
  /\ results Sample.docs_result
     <> Spec.stated_results Sample.docs_files Sample.docs_prefixes.
Proof. repeat split. discriminate. Qed.

(** C4 (amended).  Whenever [listResources] returns, its results are the
    resource entries followed by the folder entries, and [count] is the
    number of the former plus the number of the latter.  The resource
    entries are, in the backend's order, those of the objects whose key is
    not the current folder id: id the key, title its basename, size and
    mimeType those of the metadata, format what follows the last dot of the
    basename, or empty when the basename has no dot or only a leading one.
    The folder entries are, in the backend's order, those of the common
    prefixes other than ["/"]: id the prefix, and, for a prefix that ends
    with a single slash, title its last non-empty segment.  The root listing
    of the objects [file1.csv], [file2.txt] and the prefixes [folder1/],
    [folder2/] is those four entries in that order, with [count = 4]. *)
Theorem C4_listing_partition (w : World) (ctx : ListResourcesContext.t) (r : ListResult)
    (H : settled (listResources w ctx) = Fulfilled r) :
  (let cur := str (Params.currentFolderId (ListResourcesContext.params ctx)) in
   exists files response rs fs,
     bucket_getFiles w (Config.bucketName (ListResourcesContext.catalogConfig ctx))
       (listing_options (Params.set_currentFolderId cur (ListResourcesContext.params ctx)))
     = Normal (files, Some response) /\
     results r = (rs ++ fs)%list /\
     Forall2 Spec.resource_for
       (filter (fun f => negb (String.eqb cur (name f))) files) rs /\
     Forall2 Spec.folder_for
       (filter (fun p => negb (String.eqb p "/"))
          match prefixes response with Some l => l | None => [] end) fs /\
     forallb is_resource rs = true /\
     forallb is_folder fs = true /\
     Forall (fun e => entry_id e <> "/") fs /\
     count r = (List.length rs + List.length fs)%nat /\
     count r = List.length (results r)) /\
  settled (listResources Sample.root_world (Sample.listing Sample.with_secret None None))
  = Fulfilled
      {| count := 4;
         results :=
           [ResourceEntry "file1.csv" "file1.csv" (Some (JsNumber 1000)) "csv"
              (Some "text/csv");
            ResourceEntry "file2.txt" "file2.txt" (Some (JsNumber 2000)) "txt"
              (Some "plain/text");
            FolderEntry {| folder_id := "folder1/"; folder_title := "folder1" |};
            FolderEntry {| folder_id := "folder2/"; folder_title := "folder2" |}];
         path := [] |}.
Proof.
  split; [|reflexivity].
  destruct (listResources_fulfilled w ctx r H)
    as (_ & _ & files & response & Hg & Hr).
  cbv zeta in Hr |- *.
  set (cur := str (Params.currentFolderId (ListResourcesContext.params ctx))) in *.
  set (p := Params.set_currentFolderId cur (ListResourcesContext.params ctx)) in *.
  set (pfx := match prefixes response with Some l => l | None => [] end) in *.
  exists files, response, (resFiles p files), (foldersFromPrefixes pfx).
  subst r. cbn [results count].
  rewrite (resFiles_filter p cur files) by reflexivity.
  unfold foldersFromPrefixes.
  repeat split.
  - exact Hg.
  - apply Forall2_map_r. intros f _. apply resource_of_file_spec.
  - apply Forall2_map_r. intros q _. apply folder_of_prefix_spec.
  - rewrite forallb_forall. intros e He. apply in_map_iff in He.
    now destruct He as (f & <- & _).
  - rewrite forallb_forall. intros e He. apply in_map_iff in He.
    now destruct He as (q & <- & _).
  - rewrite Forall_forall. intros e He. apply in_map_iff in He.
    destruct He as (q & <- & Hq). apply filter_In in Hq. destruct Hq as [_ Hq].
    cbn [entry_id folder_of_prefix folder_id].
    apply negb_true_iff in Hq. now apply String.eqb_neq in Hq.
  - now rewrite length_app.
Qed.

Lemma C4_witness :
  settled (listResources Sample.docs_world
             (Sample.listing Sample.with_secret (Some "docs/") None))
  = Fulfilled Sample.docs_result
  /\ count Sample.docs_result = List.length (results Sample.docs_result).
Proof.
  split; [reflexivity|].
  destruct (C4_listing_partition Sample.docs_world
              (Sample.listing Sample.with_secret (Some "docs/") None)
              Sample.docs_result eq_refl)
    as [(files & response & rs & fs & _ & _ & _ & _ & _ & _ & _ & _ & Hc) _].
  exact Hc.
Defined.

(* ===================================================================== *)
(** * C6: the glob filter *)
(* ===================================================================== *)

(** An empty query counts as none. *)
Lemma listing_options_empty_query (p : Params.t) :
  Params.q p = Some "" -> matchGlob (listing_options p) = None.
Proof. intro H. unfold listing_options. now rewrite H. Qed.

(** No request reaches the backend without a secret or without a client. *)
Lemma listResources_no_request (w : World) (ctx : ListResourcesContext.t) :
  let secret := Secrets.serviceAccount (ListResourcesContext.secrets ctx) in
  JS.truthy secret = false \/ (exists e, new_Storage w (str secret) = Throw e) ->
  getFiles_calls (trace (listResources w ctx)) = [].
Proof.
  intros secret [Hs | (e & Hn)].
  - now rewrite listResources_unauthenticated.
  - destruct (JS.truthy secret) eqn:Hs.
    + now rewrite (listResources_no_client w ctx e Hs Hn).
    + now rewrite listResources_unauthenticated.
Qed.

(** With a secret and a client, the backend gets one request. *)
Lemma listResources_one_request (w : World) (ctx : ListResourcesContext.t) :
  let secret := Secrets.serviceAccount (ListResourcesContext.secrets ctx) in
  let cur := str (Params.currentFolderId (ListResourcesContext.params ctx)) in
  JS.truthy secret = true ->
  (exists u, new_Storage w (str secret) = Normal u) ->
  getFiles_calls (trace (listResources w ctx))
  = [(Config.bucketName (ListResourcesContext.catalogConfig ctx),
      listing_options (Params.set_currentFolderId cur (ListResourcesContext.params ctx)))].
Proof.
  intros secret cur Hs Hn. rewrite (listResources_run w ctx Hs Hn). fold cur.
  destruct (bucket_getFiles w _ _) as [[files [response|]]|e]; reflexivity.
Qed.

(** C6.  Whatever listing request a call of [listResources] passes to the
    backend, it is the only one of that call, it is for the configured
    bucket with the current folder id as prefix and ["/"] as delimiter, and:
    when a query [q] is supplied (a non-empty string, as the code tests it),
    its glob filter is exactly the current folder id, one asterisk, [q], two
    asterisks; when [q] is absent it has no glob filter. *)
Theorem C6_glob_filter (w : World) (ctx : ListResourcesContext.t)
    (bucket : option string) (options : GetFilesOptions)
    (Hin : In (bucket, options) (getFiles_calls (trace (listResources w ctx)))) :
  let cur := str (Params.currentFolderId (ListResourcesContext.params ctx)) in
  let q := Params.q (ListResourcesContext.params ctx) in
  getFiles_calls (trace (listResources w ctx)) = [(bucket, options)] /\
  bucket = Config.bucketName (ListResourcesContext.catalogConfig ctx) /\
  prefix options = Some cur /\
  delimiter options = Some "/" /\
  (forall query, q = Some query -> query <> "" ->
     matchGlob options = Some (cur ++ "*" ++ query ++ "**")) /\
  (q = None -> matchGlob options = None).
Proof.
  intros cur q.
  set (secret := Secrets.serviceAccount (ListResourcesContext.secrets ctx)) in *.
  destruct (JS.truthy secret) eqn:Hs.
  2:{ rewrite listResources_no_request in Hin by (now left). contradiction. }
  destruct (new_Storage w (str secret)) as [u|e] eqn:Hn.
  2:{ rewrite listResources_no_request in Hin by (right; now exists e). contradiction. }
  pose proof (listResources_one_request w ctx Hs (ex_intro _ u Hn)) as Hcalls.
  cbv zeta in Hcalls. fold cur in Hcalls. rewrite Hcalls in Hin |- *.
  destruct Hin as [[= <- <-] | []].
  unfold listing_options, Params.set_currentFolderId.
  cbn [Params.q Params.currentFolderId prefix delimiter matchGlob str]. fold q.
  repeat split.
  - intros query -> Hq. rewrite truthy_some by exact Hq. reflexivity.
  - now intros ->.
Qed.

Lemma C6_witness :
  In (Some "test-bucket",
      listing_options {| Params.currentFolderId := Some "folder1/"; Params.q := Some "fi" |})
     (getFiles_calls
        (trace (listResources Sample.root_world
                  (Sample.listing Sample.with_secret (Some "folder1/") (Some "fi")))))
  /\ matchGlob
       (listing_options {| Params.currentFolderId := Some "folder1/"; Params.q := Some "fi" |})
     = Some "folder1/*fi**".
Proof.
  assert (Hin : In (Some "test-bucket",
                    listing_options
                      {| Params.currentFolderId := Some "folder1/"; Params.q := Some "fi" |})
                   (getFiles_calls
                      (trace (listResources Sample.root_world
                                (Sample.listing Sample.with_secret (Some "folder1/")
                                   (Some "fi"))))))
    by (left; reflexivity).
  split; [exact Hin|].
  destruct (C6_glob_filter Sample.root_world
              (Sample.listing Sample.with_secret (Some "folder1/") (Some "fi")) _ _ Hin)
    as (_ & _ & _ & _ & Hq & _).
  apply (Hq "fi"); [reflexivity | discriminate].
Defined.

(* ===================================================================== *)
(** * C8: the breadcrumb *)
(* ===================================================================== *)

(** C8.  Whenever [listResources] returns, its [path] is computed from the
    current folder id split on ["/"] with the empty segments dropped: one
    folder per segment, in order, whose title is the segment and whose id is
    the segments up to it joined with ["/"] and followed by ["/"], that is
    its parent's id extended by the segment.  For ["folder1/"] the path is
    the single folder ["folder1/"] titled ["folder1"]; for an absent folder
    id it is empty. *)
Theorem C8_breadcrumb (w : World) (ctx : ListResourcesContext.t) (r : ListResult)
    (H : settled (listResources w ctx) = Fulfilled r) :
  let cur := Params.currentFolderId (ListResourcesContext.params ctx) in
  let segments := Spec.nonempty_segments (str cur) in
  List.length (path r) = List.length segments /\
  (forall i seg, nth_error segments i = Some seg ->
     nth_error (path r) i
     = Some {| folder_id := JS.join "/" (firstn (i + 1) segments) ++ "/";
               folder_title := seg |}) /\
  path r = Spec.breadcrumb cur /\
  (cur = Some "folder1/" ->
   path r = [{| folder_id := "folder1/"; folder_title := "folder1" |}]) /\
  (cur = None -> path r = []).
Proof.
  intros cur segments.
  destruct (listResources_fulfilled w ctx r H) as (_ & _ & files & response & _ & Hr).
  cbv zeta in Hr.
  set (p := Params.set_currentFolderId (str cur) (ListResourcesContext.params ctx)).
  assert (Hpath : path r = foldPath p) by (rewrite Hr; reflexivity).
  rewrite Hpath. clear Hr Hpath.
  assert (Hseg : foldersPath p = segments) by reflexivity.
  assert (Hb : foldPath p = Spec.breadcrumb cur).
  { rewrite foldPath_breadcrumb. unfold Spec.breadcrumb. reflexivity. }
  repeat split.
  - unfold foldPath, JS.mapi. now rewrite length_mapi_from, Hseg.
  - intros i seg Hi. unfold foldPath, JS.mapi. rewrite Hseg.
    now rewrite (nth_error_mapi_from _ segments 0 i seg Hi).
  - exact Hb.
  - intro Hc. rewrite Hb, Hc. reflexivity.
  - intro Hc. rewrite Hb, Hc. reflexivity.
Qed.

Lemma C8_witness :
  settled (listResources Sample.docs_world
             (Sample.listing Sample.with_secret (Some "docs/") None))
  = Fulfilled Sample.docs_result
  /\ path Sample.docs_result = Spec.breadcrumb (Some "docs/").
Proof.
  split; [reflexivity|].
  destruct (C8_breadcrumb Sample.docs_world
              (Sample.listing Sample.with_secret (Some "docs/") None)
              Sample.docs_result eq_refl)
    as (_ & _ & Hb & _).
  exact Hb.
Defined.


(* ===================================================================== *)
(** * C10: what a listing changes *)
(* ===================================================================== *)

(** C10, as stated, fails on the code.  A call with no folder id and no
    secret is refused before anything is written, and so is a call whose
    credentials build no client: [params.currentFolderId] is still absent
    afterwards. *)
Lemma C10_counterexample :
  Params.currentFolderId
    (ListResourcesContext.params (Sample.listing Sample.no_secret None None)) = None
  /\ Params.currentFolderId
       (ListResourcesContext.params
          (final (listResources Sample.root_world
                    (Sample.listing Sample.no_secret None None)))) = None
  /\ Params.currentFolderId
       (ListResourcesContext.params
          (final (listResources Sample.invalid_credentials_world
                    (Sample.listing Sample.with_secret None None)))) = None.
Proof. repeat split. Qed.

(** The objects a listing leaves behind. *)
Lemma listResources_final (w : World) (ctx : ListResourcesContext.t) :
  let secret := Secrets.serviceAccount (ListResourcesContext.secrets ctx) in
  let cur := Params.currentFolderId (ListResourcesContext.params ctx) in
  final (listResources w ctx)
  = if JS.truthy secret
    then match new_Storage w (str secret) with
         | Normal _ =>
             ListResourcesContext.with_params (Params.set_currentFolderId (str cur)) ctx
         | Throw _ => ctx
         end
    else ctx.
Proof.
  intros secret cur. destruct (JS.truthy secret) eqn:Hs.
  - destruct (new_Storage w (str secret)) as [u|e] eqn:Hn.
    + rewrite (listResources_run w ctx Hs (ex_intro _ u Hn)).
      now destruct (bucket_getFiles w _ _) as [[files [response|]]|e].
    + now rewrite (listResources_no_client w ctx e Hs Hn).
  - now rewrite listResources_unauthenticated.
Qed.

(** C10 (amended).  [listResources] mutates its input: for every call where
    [params.currentFolderId] is absent (or empty), a secret is set and the
    storage client is built from it, the caller's [params] has [currentFolderId] set
    to the empty string when the call ends, whether the listing succeeds or
    not.  A call refused for want of a secret, or whose client cannot be
    built, leaves [params] as it was.  In every call the other fields of
    [params], the configuration and the secrets are left unchanged, and so
    is a non-empty [currentFolderId]. *)
Theorem C10_params_normalised (w : World) (ctx : ListResourcesContext.t)
    (Hcur : JS.truthy (Params.currentFolderId (ListResourcesContext.params ctx)) = false)
    (Hs : JS.truthy (Secrets.serviceAccount (ListResourcesContext.secrets ctx)) = true)
    (Hn : exists u,
        new_Storage w (str (Secrets.serviceAccount (ListResourcesContext.secrets ctx)))
        = Normal u) :
  final (listResources w ctx)
  = {| ListResourcesContext.catalogConfig := ListResourcesContext.catalogConfig ctx;
       ListResourcesContext.secrets := ListResourcesContext.secrets ctx;
       ListResourcesContext.params :=
         {| Params.currentFolderId := Some "";
            Params.q := Params.q (ListResourcesContext.params ctx) |} |}
  /\ (forall (w' : World) (ctx' : ListResourcesContext.t),
        let out := listResources w' ctx' in
        let secret := Secrets.serviceAccount (ListResourcesContext.secrets ctx') in
        ListResourcesContext.catalogConfig (final out)
        = ListResourcesContext.catalogConfig ctx' /\
        ListResourcesContext.secrets (final out) = ListResourcesContext.secrets ctx' /\
        Params.q (ListResourcesContext.params (final out))
        = Params.q (ListResourcesContext.params ctx') /\
        (JS.truthy (Params.currentFolderId (ListResourcesContext.params ctx')) = true ->
         final out = ctx') /\
        (JS.truthy secret = false -> final out = ctx') /\
        ((exists e, new_Storage w' (str secret) = Throw e) -> final out = ctx')).
Proof.
  split.
  - rewrite listResources_final, Hs. destruct Hn as (u & ->).
    unfold ListResourcesContext.with_params.
    now rewrite <- set_currentFolderId_falsy.
  - intros w' ctx' out secret. unfold out. rewrite listResources_final. fold secret.
    destruct ctx' as [cfg sec [cur q]].
    cbn [ListResourcesContext.params Params.currentFolderId].
    destruct (JS.truthy secret) eqn:Hsec;
      [destruct (new_Storage w' (str secret)) as [u|e] eqn:Hnew|];
      cbn; repeat split; try easy.
    + intro Hc. destruct cur as [c|]; [reflexivity | discriminate].
    + intros (e & He). discriminate.
Qed.

Lemma C10_witness :
  final (listResources Sample.not_found_world (Sample.listing Sample.with_secret None (Some "x")))
  = Sample.listing Sample.with_secret (Some "") (Some "x").
Proof.
  exact (proj1 (C10_params_normalised Sample.not_found_world
                  (Sample.listing Sample.with_secret None (Some "x"))
                  eq_refl eq_refl (ex_intro _ tt eq_refl))).
Defined.

(* ===================================================================== *)
(** * C5: no secret, no call *)
(* ===================================================================== *)

(** C5.  When [secrets.serviceAccount] is absent ([undefined], or empty,
    which the code does not tell apart), [listResources] and [getResource]
    both fail with the Unauthenticated message, having called nothing (no
    storage client, no backend request, no log) and changed nothing. *)
Theorem C5_unauthenticated (w : World)
    (lctx : ListResourcesContext.t) (gctx : GetResourceContext.t)
    (Hl : JS.truthy (Secrets.serviceAccount (ListResourcesContext.secrets lctx)) = false)
    (Hg : JS.truthy (Secrets.serviceAccount (GetResourceContext.secrets gctx)) = false) :
  listResources w lctx
  = (Rejected {| message := "Service Account is required to access Google Cloud Storage" |},
     lctx, [])
  /\ getResource w gctx
     = (Rejected {| message := "Service Account is required to access Google Cloud Storage" |},
        gctx, []).
Proof.
  split.
  - now apply listResources_unauthenticated.
  - now apply getResource_unauthenticated.
Qed.

Lemma C5_witness :
  trace (listResources Sample.root_world (Sample.listing Sample.no_secret None None)) = []
  /\ trace (getResource Sample.root_world (Sample.download Sample.no_secret "folder1/file1.csv"))
     = [].
Proof.
  destruct (C5_unauthenticated Sample.root_world
              (Sample.listing Sample.no_secret None None)
              (Sample.download Sample.no_secret "folder1/file1.csv")
              eq_refl eq_refl) as [Hl Hg].
  rewrite Hl, Hg. split; reflexivity.
Defined.

(* ===================================================================== *)
(** * C2, C3, C7, C9: the credential preparer *)
(* ===================================================================== *)

(** [prepare] fails with one of its two messages only. *)
Lemma prepare_rejection_cases (w : World) (ctx : PrepareContext.t) (e : Error) :
  settled (prepare w ctx) = Rejected e ->
  e = {| message := MSG_REQUIRED |} \/ e = {| message := MSG_INVALID |}.
Proof.
  destruct ctx as [[bucket account] caps [stored]]. run_prepare.
  destruct (JS.truthy account && negb (JS.strict_eq account MASK));
    [|destruct (JS.truthy stored && JS.strict_eq account "")];
    prepare_fields;
    match goal with |- context [if ?c then _ else _] => destruct c end;
    prepare_fields;
    try (intros [= <-]; now left);
    match goal with |- context [new_Storage w ?c] => destruct (new_Storage w c) end;
    prepare_fields;
    try (intros [= <-]; now right);
    destruct (bucket_getFiles w bucket probe_options);
    prepare_fields;
    try (intros [= <-]; now right);
    discriminate.
Qed.

(** An empty stored secret counts as none: nothing is deleted. *)
Lemma prepare_empty_secret (w : World) (ctx : PrepareContext.t) :
  Secrets.serviceAccount (PrepareContext.secrets ctx) = Some "" ->
  Config.serviceAccount (PrepareContext.catalogConfig ctx) = Some "" ->
  prepare w ctx = (Rejected {| message := MSG_REQUIRED |}, ctx, []).
Proof.
  destruct ctx as [[bucket account] caps [stored]]. prepare_fields.
  intros -> ->. reflexivity.
Qed.

(** C2.  When [secrets.serviceAccount] is set (it holds a credential, a
    non-empty string) and [config.serviceAccount] is the empty string,
    [prepare] deletes the secret and fails with the MissingConfiguration
    message; the secret is absent afterwards, and nothing else has changed
    or been called. *)
Theorem C2_explicit_removal (w : World) (ctx : PrepareContext.t) (v : string)
    (Hsec : Secrets.serviceAccount (PrepareContext.secrets ctx) = Some v)
    (Hv : v <> "")
    (Hcfg : Config.serviceAccount (PrepareContext.catalogConfig ctx) = Some "") :
  settled (prepare w ctx)
  = Rejected {| message := "Service account and bucketName is required for Google Cloud Storage" |}
  /\ Secrets.serviceAccount (PrepareContext.secrets (final (prepare w ctx))) = None
  /\ PrepareContext.catalogConfig (final (prepare w ctx)) = PrepareContext.catalogConfig ctx
  /\ trace (prepare w ctx) = [].
Proof.
  rewrite prepare_removal; [now repeat split | | exact Hcfg].
  rewrite Hsec. now apply truthy_some.
Qed.

Lemma C2_witness :
  Secrets.serviceAccount
    (PrepareContext.secrets
       (final (prepare Sample.root_world
                 (Sample.preparing (Some "test-bucket") (Some "") (Some Sample.secret)))))
  = None.
Proof.
  refine (proj1 (proj2 (C2_explicit_removal Sample.root_world
                   (Sample.preparing (Some "test-bucket") (Some "") (Some Sample.secret))
                   Sample.secret eq_refl _ eq_refl))).
  discriminate.
Defined.

(** C3.  When [config.serviceAccount] is a non-empty value [V] other than
    the mask and the validation probe succeeds, [prepare] returns the
    caller's objects with [config.serviceAccount] equal to the mask and
    [secrets.serviceAccount] equal to [V].  Whenever [prepare] returns,
    [config.serviceAccount] is the mask or absent. *)
Theorem C3_secret_rotation (w : World) (ctx : PrepareContext.t) (V : string)
    (Hcfg : Config.serviceAccount (PrepareContext.catalogConfig ctx) = Some V)
    (HV : V <> "") (HM : V <> MASK)
    (Hp : probe_succeeds w (Some V)
            (Config.bucketName (PrepareContext.catalogConfig ctx)) = true) :
  (exists ctx',
     settled (prepare w ctx) = Fulfilled ctx' /\
     final (prepare w ctx) = ctx' /\
     Config.serviceAccount (PrepareContext.catalogConfig ctx')
     = Some "*************************" /\
     Secrets.serviceAccount (PrepareContext.secrets ctx') = Some V /\
     Config.serviceAccount (PrepareContext.catalogConfig ctx') <> Some V /\
     Config.bucketName (PrepareContext.catalogConfig ctx')
     = Config.bucketName (PrepareContext.catalogConfig ctx) /\
     PrepareContext.capabilities ctx' = PrepareContext.capabilities ctx)
  /\ (forall (w0 : World) (ctx0 ctx1 : PrepareContext.t),
        settled (prepare w0 ctx0) = Fulfilled ctx1 ->
        Config.serviceAccount (PrepareContext.catalogConfig ctx1) = Some MASK \/
        Config.serviceAccount (PrepareContext.catalogConfig ctx1) = None).
Proof.
  split.
  - rewrite (prepare_rotation w ctx V Hcfg HV HM Hp).
    eexists. repeat split. cbn. intros [= Heq]. now apply HM.
  - intros w0 ctx0 ctx1 H. now apply (prepare_fulfilled w0 ctx0 ctx1).
Qed.

Lemma C3_witness :
  probe_succeeds Sample.root_world (Some Sample.secret) (Some "test-bucket") = true
  /\ exists ctx',
       settled (prepare Sample.root_world
                  (Sample.preparing (Some "test-bucket") (Some Sample.secret) None))
       = Fulfilled ctx'
       /\ Secrets.serviceAccount (PrepareContext.secrets ctx') = Some Sample.secret.
Proof.
  split; [reflexivity|].
  assert (HV : Sample.secret <> "") by discriminate.
  assert (HM : Sample.secret <> MASK) by discriminate.
  destruct (C3_secret_rotation Sample.root_world
              (Sample.preparing (Some "test-bucket") (Some Sample.secret) None)
              Sample.secret eq_refl HV HM eq_refl)
    as [(ctx' & Hs & _ & _ & Hsec & _) _].
  exists ctx'. split; assumption.
Defined.

(** C7.  When [config.serviceAccount] is already the mask, a secret is set
    and the validation probe succeeds, [prepare] returns the caller's
    objects as they were: the returned configuration and secrets equal the
    input, and preparing what was returned gives the same again. *)
Theorem C7_masked_noop (w : World) (ctx : PrepareContext.t) (s : string)
    (Hcfg : Config.serviceAccount (PrepareContext.catalogConfig ctx) = Some MASK)
    (Hsec : Secrets.serviceAccount (PrepareContext.secrets ctx) = Some s)
    (Hp : probe_succeeds w (Some s)
            (Config.bucketName (PrepareContext.catalogConfig ctx)) = true) :
  settled (prepare w ctx) = Fulfilled ctx
  /\ final (prepare w ctx) = ctx
  /\ (forall ctx', settled (prepare w ctx) = Fulfilled ctx' ->
        PrepareContext.catalogConfig ctx' = PrepareContext.catalogConfig ctx /\
        PrepareContext.secrets ctx' = PrepareContext.secrets ctx /\
        prepare w ctx' = prepare w ctx).
Proof.
  rewrite <- Hsec in Hp. rewrite (prepare_masked w ctx Hcfg Hp).
  split; [reflexivity|]. split; [reflexivity|].
  intros ctx' Hret. cbn in Hret. injection Hret as <-.
  split; [reflexivity|]. split; [reflexivity|].
  now rewrite (prepare_masked w ctx Hcfg Hp).
Qed.

Lemma C7_witness :
  settled (prepare Sample.root_world
             (Sample.preparing (Some "test-bucket") (Some MASK) (Some Sample.secret)))
  = Fulfilled (Sample.preparing (Some "test-bucket") (Some MASK) (Some Sample.secret)).
Proof.
  exact (proj1 (C7_masked_noop Sample.root_world
                  (Sample.preparing (Some "test-bucket") (Some MASK) (Some Sample.secret))
                  Sample.secret eq_refl eq_refl eq_refl)).
Defined.

(** C9.  [prepare] is not atomic on failure: when [config.serviceAccount] is
    a non-empty value [V] other than the mask and [config.bucketName] is
    empty (or missing), [prepare] fails with the MissingConfiguration message, and the
    caller's objects have been rotated all the same: afterwards
    [secrets.serviceAccount] is [V] and [config.serviceAccount] is the
    mask. *)
Theorem C9_rotation_survives_failure (w : World) (ctx : PrepareContext.t) (V : string)
    (Hcfg : Config.serviceAccount (PrepareContext.catalogConfig ctx) = Some V)
    (HV : V <> "") (HM : V <> MASK)
    (Hb : JS.truthy (Config.bucketName (PrepareContext.catalogConfig ctx)) = false) :
  settled (prepare w ctx)
  = Rejected {| message := "Service account and bucketName is required for Google Cloud Storage" |}
  /\ Secrets.serviceAccount (PrepareContext.secrets (final (prepare w ctx))) = Some V
  /\ Config.serviceAccount (PrepareContext.catalogConfig (final (prepare w ctx)))
     = Some "*************************"
  /\ trace (prepare w ctx) = [].
Proof.
  now rewrite (prepare_rotation_refused w ctx V Hcfg HV HM Hb).
Qed.

Lemma C9_witness :
  Secrets.serviceAccount
    (PrepareContext.secrets
       (final (prepare Sample.root_world
                 (Sample.preparing (Some "") (Some Sample.secret) None))))
  = Some Sample.secret.
Proof.
  assert (HV : Sample.secret <> "") by discriminate.
  assert (HM : Sample.secret <> MASK) by discriminate.
  exact (proj1 (proj2 (C9_rotation_survives_failure Sample.root_world
                         (Sample.preparing (Some "") (Some Sample.secret) None)
                         Sample.secret eq_refl HV HM eq_refl))).
Defined.

(* ===================================================================== *)
(** * C1: how a download fails *)
(* ===================================================================== *)

(** C1.  The code at the failing input: when the stream of the object
    breaks, here after one chunk with the error "socket hang up", the
    promise [getResource] has returned is rejected with the stream's own
    error, not with the DownloadFailed message; the [catch] block is not
    run (no [console.error], and [log.error] gets the message of the
    ['error'] listener). *)
Theorem C1_stream_error_surfaces :
  getResource Sample.broken_stream_world
    (Sample.download Sample.json_secret "folder1/file1.csv")
  = (Rejected {| message := "socket hang up" |},
     Sample.download Sample.json_secret "folder1/file1.csv",
     [EvNewStorage "{}";
      EvLogStep "Téléchargement du fichier : file1.csv";
      EvGetMetadata (Some "test-bucket") "folder1/file1.csv";
      EvLogTask "download folder1/file1.csv" "Progression" (Some 1000);
      EvCreateReadStream (Some "test-bucket") "folder1/file1.csv";
      EvCreateWriteStream "/tmp/file1.csv";
      EvLogProgress "download folder1/file1.csv" 10;
      EvLogError "Error during download: socket hang up"])
  /\ {| message := "socket hang up" |}
     <> {| message :=
             "Erreur dans le téléchargement du fichier / Authentification GCS possiblement incorrecte" |}.
Proof. split; [reflexivity | discriminate]. Qed.

(** The failure of the test suite, the metadata that cannot be fetched, is
    caught and surfaces as the DownloadFailed message. *)
Example getResource_not_found :
  getResource Sample.not_found_world
    (Sample.download Sample.json_secret "folder1/nonexistent.csv")
  = (Rejected {| message := MSG_DOWNLOAD_FAILED |},
     Sample.download Sample.json_secret "folder1/nonexistent.csv",
     [EvNewStorage "{}";
      EvLogStep "Téléchargement du fichier : nonexistent.csv";
      EvGetMetadata (Some "test-bucket") "folder1/nonexistent.csv";
      EvConsoleError "Error getting resource:";
      EvLogError "Error during file download: File not found"]).
Proof. reflexivity. Qed.

(** The same with a [log.error] that throws: the [catch] block does not
    await it, its exception leaves the block before the DownloadFailed
    error is thrown. *)
Example getResource_error_sink_throws :
  settled (getResource Sample.not_found_world
             (Sample.download_logging Sample.throwing_error_log Sample.json_secret
                "folder1/nonexistent.csv"))
  = Rejected {| message := "error sink failed" |}.
Proof. reflexivity. Qed.

(* ===================================================================== *)
(** * More on [prepare] *)
(* ===================================================================== *)

(** The objects [prepare] leaves behind, whatever its verdict. *)
Lemma prepare_final (w : World) (ctx : PrepareContext.t) :
  let account := Config.serviceAccount (PrepareContext.catalogConfig ctx) in
  let stored := Secrets.serviceAccount (PrepareContext.secrets ctx) in
  let rotate := JS.truthy account && negb (JS.strict_eq account MASK) in
  let remove := JS.truthy stored && JS.strict_eq account "" in
  final (prepare w ctx)
  = {| PrepareContext.catalogConfig :=
         {| Config.bucketName := Config.bucketName (PrepareContext.catalogConfig ctx);
            Config.serviceAccount := if rotate then Some MASK else account |};
       PrepareContext.capabilities := PrepareContext.capabilities ctx;
       PrepareContext.secrets :=
         {| Secrets.serviceAccount :=
              if rotate then account else if remove then None else stored |} |}.
Proof.
  destruct ctx as [[bucket account] caps [stored]]. run_prepare.
  destruct (JS.truthy account && negb (JS.strict_eq account MASK));
    [|destruct (JS.truthy stored && JS.strict_eq account "")];
    prepare_fields;
    match goal with |- context [if ?c then _ else _] => destruct c end;
    prepare_fields; try reflexivity;
    match goal with |- context [new_Storage w ?c] => destruct (new_Storage w c) end;
    prepare_fields; try reflexivity;
    destruct (bucket_getFiles w bucket probe_options); reflexivity.
Qed.

(** The verdict and the calls, read off the objects as they are left. *)
Lemma prepare_run (w : World) (ctx : PrepareContext.t) :
  let out := prepare w ctx in
  let secret := Secrets.serviceAccount (PrepareContext.secrets (final out)) in
  let bucket := Config.bucketName (PrepareContext.catalogConfig (final out)) in
  (settled out, trace out)
  = if JS.truthy secret && JS.truthy bucket then
      match new_Storage w (str secret) with
      | Normal _ =>
          match bucket_getFiles w bucket probe_options with
          | Normal _ =>
              (Fulfilled (final out),
               [EvNewStorage (str secret); EvGetFiles bucket probe_options])
          | Throw _ =>
              (Rejected {| message := MSG_INVALID |},
               [EvNewStorage (str secret); EvGetFiles bucket probe_options;
                EvConsoleError "Error accessing Google Cloud Storage"])
          end
      | Throw _ =>
          (Rejected {| message := MSG_INVALID |},
           [EvNewStorage (str secret);
            EvConsoleError "Error accessing Google Cloud Storage"])
      end
    else (Rejected {| message := MSG_REQUIRED |}, []).
Proof.
  destruct ctx as [[bucket account] caps [stored]]. run_prepare.
  destruct (JS.truthy account && negb (JS.strict_eq account MASK));
    [|destruct (JS.truthy stored && JS.strict_eq account "")];
    prepare_fields;
    match goal with |- context [if ?c then _ else _] => destruct c eqn:Hgate end;
    prepare_fields; rewrite ?Hgate; try reflexivity;
    match goal with |- context [new_Storage w ?c] =>
      destruct (new_Storage w c) eqn:Hn end;
    unfold call; prepare_fields; rewrite ?Hgate, ?Hn; try reflexivity;
    destruct (bucket_getFiles w bucket probe_options) eqn:Hg;
    unfold call; prepare_fields; rewrite ?Hgate, ?Hn, ?Hg; reflexivity.
Qed.

Lemma probe_succeeds_eq (w : World) (secret bucket : option string) :
  probe_succeeds w secret bucket
  = JS.truthy secret && JS.truthy bucket &&
    match new_Storage w (str secret) with
    | Normal _ =>
        match bucket_getFiles w bucket probe_options with
        | Normal _ => true
        | Throw _ => false
        end
    | Throw _ => false
    end.
Proof.
  unfold probe_succeeds.
  destruct (new_Storage w (str secret)); [|reflexivity].
  now destruct (bucket_getFiles w bucket probe_options).
Qed.

(** X1.  The verdict of [prepare] depends only on the objects as it leaves
    them: it refuses with the MissingConfiguration message when no secret or
    no bucket name is left, fails with the InvalidCredentials message when
    the probe with what is left does not succeed, whatever the underlying
    error, and otherwise returns those very objects. *)
Theorem prepare_verdict (w : World) (ctx : PrepareContext.t) :
  let out := prepare w ctx in
  let secret := Secrets.serviceAccount (PrepareContext.secrets (final out)) in
  let bucket := Config.bucketName (PrepareContext.catalogConfig (final out)) in
  settled out
  = if JS.truthy secret && JS.truthy bucket then
      if probe_succeeds w secret bucket
      then Fulfilled (final out)
      else Rejected
             {| message :=
                  "Invalid bucketName or service account credentials for Google Cloud Storage" |}
    else Rejected
           {| message :=
                "Service account and bucketName is required for Google Cloud Storage" |}.
Proof.
  intros out secret bucket.
  pose proof (prepare_run w ctx) as H. cbv zeta in H. fold out secret bucket in H.
  rewrite probe_succeeds_eq.
  destruct (JS.truthy secret && JS.truthy bucket); cbn [andb].
  - destruct (new_Storage w (str secret));
      [destruct (bucket_getFiles w bucket probe_options)|];
      now injection H.
  - now injection H.
Qed.

(** X2.  Whatever its verdict, [prepare] leaves no raw credential in the
    configuration: afterwards [config.serviceAccount] is the mask, or empty,
    or absent; the bucket name and the capabilities are as they were. *)
Theorem prepare_leaves_no_raw_credential (w : World) (ctx : PrepareContext.t) :
  let after := final (prepare w ctx) in
  (Config.serviceAccount (PrepareContext.catalogConfig after) = Some MASK \/
   JS.truthy (Config.serviceAccount (PrepareContext.catalogConfig after)) = false) /\
  Config.bucketName (PrepareContext.catalogConfig after)
  = Config.bucketName (PrepareContext.catalogConfig ctx) /\
  PrepareContext.capabilities after = PrepareContext.capabilities ctx.
Proof.
  cbv zeta. rewrite prepare_final. prepare_fields. repeat split.
  destruct (Config.serviceAccount (PrepareContext.catalogConfig ctx)) as [v|];
    [|now right].
  cbn. destruct (String.eqb_spec v ""); cbn; [right; subst; reflexivity|].
  destruct (String.eqb_spec v MASK); cbn; [subst|]; now left.
Qed.

(** X3.  [prepare] drops a stored secret only on explicit removal: when a
    secret is set and [config.serviceAccount] is not the empty string, a
    secret is still set afterwards (the new credential if one was given,
    else the stored one), whatever the verdict. *)
Theorem prepare_keeps_secret (w : World) (ctx : PrepareContext.t)
    (Hs : JS.truthy (Secrets.serviceAccount (PrepareContext.secrets ctx)) = true)
    (Hc : Config.serviceAccount (PrepareContext.catalogConfig ctx) <> Some "") :
  let account := Config.serviceAccount (PrepareContext.catalogConfig ctx) in
  let after := Secrets.serviceAccount (PrepareContext.secrets (final (prepare w ctx))) in
  JS.truthy after = true /\
  (after = Secrets.serviceAccount (PrepareContext.secrets ctx) \/
   (after = account /\ account <> Some MASK)).
Proof.
  cbv zeta. rewrite prepare_final. prepare_fields.
  destruct (Config.serviceAccount (PrepareContext.catalogConfig ctx)) as [v|].
  - cbn [JS.truthy JS.strict_eq].
    destruct (String.eqb_spec v ""); [subst; contradiction|]. cbn [negb andb].
    rewrite andb_false_r.
    destruct (String.eqb_spec v MASK); cbn [negb].
    + split; [exact Hs | now left].
    + split; [cbn; now destruct (String.eqb_spec v "") |].
      right. split; [reflexivity | congruence].
  - cbn. rewrite andb_false_r. split; [exact Hs | now left].
Qed.

Lemma prepare_keeps_secret_witness :
  JS.truthy
    (Secrets.serviceAccount
       (PrepareContext.secrets
          (final (prepare Sample.not_found_world
                    (Sample.preparing (Some "test-bucket") None (Some Sample.secret))))))
  = true.
Proof.
  assert (Hc : @None string <> Some "") by discriminate.
  exact (proj1 (prepare_keeps_secret Sample.not_found_world
                  (Sample.preparing (Some "test-bucket") None (Some Sample.secret))
                  eq_refl Hc)).
Defined.

(** X4.  [prepare] reaches the backend only when a secret and a bucket name
    are left, and then once: any request found in its trace is the only
    one, is for the configured bucket and asks for a single item. *)
Theorem prepare_probes_once (w : World) (ctx : PrepareContext.t)
    (bucket : option string) (options : GetFilesOptions)
    (Hin : In (bucket, options) (getFiles_calls (trace (prepare w ctx)))) :
  getFiles_calls (trace (prepare w ctx)) = [(bucket, options)] /\
  bucket = Config.bucketName (PrepareContext.catalogConfig ctx) /\
  JS.truthy bucket = true /\
  JS.truthy (Secrets.serviceAccount (PrepareContext.secrets (final (prepare w ctx)))) = true /\
  maxResults options = Some 1 /\
  prefix options = None /\ matchGlob options = None.
Proof.
  pose proof (prepare_run w ctx) as H. cbv zeta in H.
  assert (Hb : Config.bucketName (PrepareContext.catalogConfig (final (prepare w ctx)))
               = Config.bucketName (PrepareContext.catalogConfig ctx))
    by (now rewrite prepare_final).
  rewrite Hb in *.
  set (out := prepare w ctx) in *.
  set (secret := Secrets.serviceAccount (PrepareContext.secrets (final out))) in *.
  set (b := Config.bucketName (PrepareContext.catalogConfig ctx)) in *.
  destruct (JS.truthy secret) eqn:Hs; cbn [andb] in H;
    [destruct (JS.truthy b) eqn:Htb|]; cbn [andb] in H.
  - assert (Hcalls : getFiles_calls (trace out) = [] \/
                     getFiles_calls (trace out) = [(b, probe_options)]).
    { destruct (new_Storage w (str secret));
        [destruct (bucket_getFiles w b probe_options)|];
        injection H as _ Ht; rewrite Ht; cbn; auto. }
    destruct Hcalls as [Hc | Hc]; rewrite Hc in Hin |- *; [contradiction|].
    destruct Hin as [[= <- <-] | []]. now repeat split.
  - injection H as _ Ht. rewrite Ht in Hin. contradiction.
  - injection H as _ Ht. rewrite Ht in Hin. contradiction.
Qed.

Lemma prepare_probes_once_witness :
  getFiles_calls
    (trace (prepare Sample.root_world
              (Sample.preparing (Some "test-bucket") (Some Sample.secret) None)))
  = [(Some "test-bucket", probe_options)].
Proof.
  refine (proj1 (prepare_probes_once Sample.root_world
                   (Sample.preparing (Some "test-bucket") (Some Sample.secret) None)
                   (Some "test-bucket") probe_options _)).
  left. reflexivity.
Defined.

(** X5.  A credential that fails validation is stored all the same: when
    [config.serviceAccount] is a non-empty value [V] other than the mask, a
    bucket name is given and the probe does not succeed, [prepare] fails
    with the InvalidCredentials message after [V] has been moved to the
    secrets and masked in the configuration. *)
Theorem prepare_invalid_credentials_stored (w : World) (ctx : PrepareContext.t)
    (V : string)
    (Hcfg : Config.serviceAccount (PrepareContext.catalogConfig ctx) = Some V)
    (HV : V <> "") (HM : V <> MASK)
    (Hb : JS.truthy (Config.bucketName (PrepareContext.catalogConfig ctx)) = true)
    (Hp : probe_succeeds w (Some V)
            (Config.bucketName (PrepareContext.catalogConfig ctx)) = false) :
  settled (prepare w ctx)
  = Rejected
      {| message :=
           "Invalid bucketName or service account credentials for Google Cloud Storage" |}
  /\ Secrets.serviceAccount (PrepareContext.secrets (final (prepare w ctx))) = Some V
  /\ Config.serviceAccount (PrepareContext.catalogConfig (final (prepare w ctx)))
     = Some MASK
  /\ last (trace (prepare w ctx)) (EvNewStorage V)
     = EvConsoleError "Error accessing Google Cloud Storage".
Proof.
  assert (Hfinal : final (prepare w ctx)
                   = {| PrepareContext.catalogConfig :=
                          {| Config.bucketName :=
                               Config.bucketName (PrepareContext.catalogConfig ctx);
                             Config.serviceAccount := Some MASK |};
                        PrepareContext.capabilities := PrepareContext.capabilities ctx;
                        PrepareContext.secrets := {| Secrets.serviceAccount := Some V |} |}).
  { rewrite prepare_final. cbv zeta. rewrite Hcfg.
    now rewrite (truthy_some V HV), (strict_eq_some_neq V MASK HM). }
  pose proof (prepare_run w ctx) as H. cbv zeta in H. rewrite Hfinal in H |- *.
  prepare_fields. cbn [PrepareContext.catalogConfig PrepareContext.secrets
    Config.bucketName Secrets.serviceAccount] in H.
  rewrite (truthy_some V HV), Hb in H. cbn [andb str] in H.
  rewrite probe_succeeds_eq, (truthy_some V HV), Hb in Hp. cbn [andb str] in Hp.
  destruct (new_Storage w V);
    [destruct (bucket_getFiles w _ probe_options); [discriminate|]|];
    injection H as -> ->; now repeat split.
Qed.

Lemma prepare_invalid_credentials_stored_witness :
  Secrets.serviceAccount
    (PrepareContext.secrets
       (final (prepare Sample.invalid_credentials_world
                 (Sample.preparing (Some "test-bucket") (Some "not-a-json") None))))
  = Some "not-a-json".
Proof.
  assert (HV : "not-a-json" <> "") by discriminate.
  assert (HM : "not-a-json" <> MASK) by discriminate.
  exact (proj1 (proj2 (prepare_invalid_credentials_stored
                         Sample.invalid_credentials_world
                         (Sample.preparing (Some "test-bucket") (Some "not-a-json") None)
                         "not-a-json" eq_refl HV HM eq_refl eq_refl))).
Defined.

(** With no account in the configuration, or the mask, the objects stay as
    they are. *)
Lemma prepare_untouched (w : World) (ctx : PrepareContext.t) :
  Config.serviceAccount (PrepareContext.catalogConfig ctx) = Some MASK \/
  Config.serviceAccount (PrepareContext.catalogConfig ctx) = None ->
  final (prepare w ctx) = ctx.
Proof.
  intro H. rewrite prepare_final. cbv zeta.
  destruct ctx as [[bucket account] caps [stored]]. prepare_fields.
  cbn in H. destruct H as [-> | ->]; cbn; now rewrite andb_false_r.
Qed.

(** X6.  Preparing again what [prepare] has returned changes nothing and
    returns it again: every successful [prepare], a rotation included, is
    followed by a no-op. *)
Theorem prepare_idempotent (w : World) (ctx ctx' : PrepareContext.t)
    (H : settled (prepare w ctx) = Fulfilled ctx') :
  settled (prepare w ctx') = Fulfilled ctx' /\
  final (prepare w ctx') = ctx' /\
  trace (prepare w ctx')
  = [EvNewStorage (str (Secrets.serviceAccount (PrepareContext.secrets ctx')));
     EvGetFiles (Config.bucketName (PrepareContext.catalogConfig ctx')) probe_options].
Proof.
  destruct (prepare_fulfilled w ctx ctx' H) as (_ & Hp & Hc).
  pose proof (prepare_untouched w ctx' Hc) as Hf.
  pose proof (prepare_run w ctx') as Hr. cbv zeta in Hr. rewrite Hf in Hr.
  apply probe_succeeds_inv in Hp. destruct Hp as (Hs & Hb & (u & Hn) & (a & Hg)).
  rewrite Hs, Hb, Hn, Hg in Hr. cbn [andb] in Hr.
  injection Hr as -> ->. now repeat split.
Qed.

Lemma prepare_idempotent_witness :
  settled (prepare Sample.root_world
             (Sample.preparing (Some "test-bucket") (Some MASK) (Some Sample.secret)))
  = Fulfilled (Sample.preparing (Some "test-bucket") (Some MASK) (Some Sample.secret)).
Proof.
  exact (proj1 (prepare_idempotent Sample.root_world
                  (Sample.preparing (Some "test-bucket") (Some Sample.secret) None)
                  (Sample.preparing (Some "test-bucket") (Some MASK) (Some Sample.secret))
                  eq_refl)).
Defined.

(* ===================================================================== *)
(** * More on [listResources] *)
(* ===================================================================== *)

(** X7.  With a secret set, every failure of [listResources] surfaces as
    the ListingFailed message, whatever failed (building the client, the
    backend request, or reading the prefixes of an answer that has no third
    component), and the last thing done is the error log. *)
Theorem listing_failure_collapsed (w : World) (ctx : ListResourcesContext.t) (e : Error)
    (Hs : JS.truthy (Secrets.serviceAccount (ListResourcesContext.secrets ctx)) = true)
    (Hr : settled (listResources w ctx) = Rejected e) :
  e = {| message :=
           "Erreur dans le listage des fichiers / Authentification GCS possiblement incorrecte" |}
  /\ last (trace (listResources w ctx)) (EvConsoleError "")
     = EvConsoleError "Error listing resources:"
  /\ ((exists e0,
         new_Storage w (str (Secrets.serviceAccount (ListResourcesContext.secrets ctx)))
         = Throw e0) \/
      getFiles_calls (trace (listResources w ctx)) <> []).
Proof.
  set (secret := Secrets.serviceAccount (ListResourcesContext.secrets ctx)) in *.
  destruct (new_Storage w (str secret)) as [u|e0] eqn:Hn.
  - rewrite (listResources_run w ctx Hs (ex_intro _ u Hn)) in Hr |- *.
    destruct (bucket_getFiles w _ _) as [[files [response|]]|e1];
      cbn in Hr |- *; try discriminate;
      injection Hr as <-; repeat split; right; discriminate.
  - rewrite (listResources_no_client w ctx e0 Hs Hn) in Hr |- *.
    cbn in Hr |- *. injection Hr as <-. repeat split. left. now exists e0.
Qed.

Lemma listing_failure_collapsed_witness :
  settled (listResources Sample.invalid_credentials_world
             (Sample.listing Sample.with_secret None None))
  = Rejected {| message := MSG_LISTING_FAILED |}.
Proof.
  destruct (settled (listResources Sample.invalid_credentials_world
                       (Sample.listing Sample.with_secret None None)))
    as [r|e|] eqn:Hr; try discriminate.
  f_equal.
  exact (proj1 (listing_failure_collapsed Sample.invalid_credentials_world
                  (Sample.listing Sample.with_secret None None) e eq_refl Hr)).
Defined.

Lemma str_set_currentFolderId (p : Params.t) (cur : string) :
  Params.set_currentFolderId
    (str (Params.currentFolderId (Params.set_currentFolderId cur p)))
    (Params.set_currentFolderId cur p)
  = Params.set_currentFolderId cur p.
Proof. reflexivity. Qed.

(** X8.  A listing normalises the caller's [params] once and for all:
    listing again with the objects a call has left gives the same outcome,
    the same requests and leaves them as they are. *)
Theorem listResources_idempotent (w : World) (ctx : ListResourcesContext.t) :
  listResources w (final (listResources w ctx)) = listResources w ctx.
Proof.
  set (secret := Secrets.serviceAccount (ListResourcesContext.secrets ctx)).
  destruct (JS.truthy secret) eqn:Hs.
  - destruct (new_Storage w (str secret)) as [u|e] eqn:Hn.
    + assert (Hf : final (listResources w ctx)
                   = ListResourcesContext.with_params
                       (Params.set_currentFolderId
                          (str (Params.currentFolderId (ListResourcesContext.params ctx))))
                       ctx).
      { rewrite listResources_final. fold secret. now rewrite Hs, Hn. }
      rewrite Hf.
      pose proof (listResources_run w ctx Hs (ex_intro _ u Hn)) as H1.
      pose proof (listResources_run w
                    (ListResourcesContext.with_params
                       (Params.set_currentFolderId
                          (str (Params.currentFolderId (ListResourcesContext.params ctx))))
                       ctx) Hs (ex_intro _ u Hn)) as H2.
      cbv zeta in H1, H2. rewrite H1, H2.
      destruct ctx as [cfg sec [cur q]]. reflexivity.
    + rewrite (listResources_no_client w ctx e Hs Hn). cbn [final fst snd].
      now rewrite (listResources_no_client w ctx e Hs Hn).
  - rewrite (listResources_unauthenticated w ctx Hs). cbn [final fst snd].
    now rewrite (listResources_unauthenticated w ctx Hs).
Qed.

(* ===================================================================== *)
(** * Characters of titles and formats *)
(* ===================================================================== *)

Lemma in_list_of_append (c : ascii) (a b : string) :
  In c (list_ascii_of_string (a ++ b)) <->
  In c (list_ascii_of_string a) \/ In c (list_ascii_of_string b).
Proof. rewrite list_of_append. apply in_app_iff. Qed.

(** [path.basename] never returns a slash. *)
Lemma basename_no_slash (key : string) :
  ~ In JS.slash (list_ascii_of_string (NodePath.basename key)).
Proof.
  destruct (path_decomposition key)
    as [Hall | (pre & comp & sl & -> & Hne & Hns & Hsl & Hpre)].
  - rewrite basename_slashes by exact Hall. intros [].
  - now rewrite basename_decomposed.
Qed.

(** A string either has no dot or splits at its last one. *)
Lemma last_dot_decomposition (s : string) :
  ~ In JS.dot (list_ascii_of_string s) \/
  exists u v, s = u ++ String JS.dot v /\ ~ In JS.dot (list_ascii_of_string v).
Proof.
  induction s as [|a s IH].
  - left. intros [].
  - destruct IH as [Hno | (u & v & -> & Hv)].
    + destruct (Ascii.eqb_spec a JS.dot) as [-> | Ha].
      * right. now exists "", s.
      * left. intros [H | H]; [now apply Ha | now apply Hno].
    + right. now exists (String a u), v.
Qed.

(** The extension is empty or a dot-free tail that follows a dot. *)
Lemma extension_cases (s : string) :
  Spec.extension s = "" \/
  exists u, s = u ++ "." ++ Spec.extension s /\ u <> "" /\
            ~ In JS.dot (list_ascii_of_string (Spec.extension s)).
Proof.
  unfold Spec.extension.
  destruct (last_dot_decomposition s) as [Hno | (u & v & -> & Hv)].
  - left. now rewrite lastIndexOf_absent.
  - rewrite lastIndexOf_last by exact Hv.
    pose proof (len_nonneg u) as Hu.
    destruct (Z.leb_spec (JS.len u) 0) as [Hz | Hz]; [now left | right].
    exists u.
    assert (Hsub : JS.substring_from (u ++ String JS.dot v) (JS.len u + 1) = v).
    { change (String JS.dot v) with ("." ++ v). rewrite <- append_assoc.
      replace (JS.len u + 1) with (JS.len (u ++ "."))
        by (rewrite len_append; reflexivity).
      apply substring_from_append. }
    rewrite Hsub. repeat split; [|exact Hv].
    intros ->. cbn in Hz. lia.
Qed.

(** X10 is about every resource entry of a listing. *)
Lemma resource_of_file_characters (file : File) :
  exists title format,
    resource_of_file file
    = ResourceEntry (name file) title (size (metadata file)) format
        (contentType (metadata file)) /\
    ~ In JS.slash (list_ascii_of_string title) /\
    ~ In JS.slash (list_ascii_of_string format) /\
    ~ In JS.dot (list_ascii_of_string format).
Proof.
  exists (NodePath.basename (name file)), (format_of (name file)).
  split; [reflexivity|]. split; [apply basename_no_slash|].
  rewrite format_of_basename.
  pose proof (basename_no_slash (name file)) as Hb.
  destruct (extension_cases (NodePath.basename (name file)))
    as [-> | (u & Hu & _ & Hd)].
  - split; intros [].
  - split; [|exact Hd]. intro H. apply Hb. rewrite Hu.
    apply in_list_of_append. right. apply in_list_of_append. now right.
Qed.

(** Every string is a slash-free tail after nothing or after a slash. *)
Lemma tail_decomposition (s : string) :
  exists a b,
    s = a ++ b /\ ~ In JS.slash (list_ascii_of_string b) /\
    (a = "" \/ exists a', a = a' ++ "/").
Proof.
  induction s as [|x s IH].
  - exists "", "". repeat split; [intros [] | now left].
  - destruct IH as (a & b & -> & Hb & [-> | (a' & ->)]).
    + destruct (Ascii.eqb_spec x JS.slash) as [-> | Hx].
      * exists "/", b. repeat split; [exact Hb | right; now exists ""].
      * exists "", (String x b). repeat split; [|now left].
        intros [H | H]; [now apply Hx | now apply Hb].
    + exists (String x a' ++ "/"), b. repeat split; [exact Hb|].
      right. now exists (String x a').
Qed.

(** [s.substring(s.lastIndexOf('/') + 1)] is that tail. *)
Lemma substring_after_last_slash (a b : string) :
  ~ In JS.slash (list_ascii_of_string b) ->
  (a = "" \/ exists a', a = a' ++ "/") ->
  JS.substring_from (a ++ b) (JS.lastIndexOf JS.slash (a ++ b) + 1) = b.
Proof.
  intros Hb [-> | (a' & ->)].
  - cbn [append]. rewrite lastIndexOf_absent by exact Hb.
    change (-1 + 1) with (JS.len ""). apply (substring_from_append "" b).
  - rewrite append_assoc. change ("/" ++ b) with (String JS.slash b).
    rewrite lastIndexOf_last by exact Hb.
    change (String JS.slash b) with ("/" ++ b). rewrite <- append_assoc.
    replace (JS.len a' + 1) with (JS.len (a' ++ "/"))
      by (rewrite len_append; reflexivity).
    apply substring_from_append.
Qed.

Lemma folder_title_no_slash (p : string) :
  exists title,
    folder_of_prefix p = FolderEntry {| folder_id := p; folder_title := title |} /\
    ~ In JS.slash (list_ascii_of_string title).
Proof.
  unfold folder_of_prefix.
  destruct (tail_decomposition (JS.substring p 0 (JS.len p - 1)))
    as (a & b & Hd & Hb & Ha).
  exists b. split; [|exact Hb].
  rewrite Hd. now rewrite substring_after_last_slash.
Qed.

(** X9.  In every listing the titles are single path segments and the
    formats bare extensions: no title of a resource or of a folder holds a
    slash, and no format holds a slash or a dot. *)
Theorem listing_titles_and_formats (w : World) (ctx : ListResourcesContext.t)
    (r : ListResult) (H : settled (listResources w ctx) = Fulfilled r) :
  Forall
    (fun e =>
       match e with
       | ResourceEntry _ title _ format _ =>
           ~ In JS.slash (list_ascii_of_string title) /\
           ~ In JS.slash (list_ascii_of_string format) /\
           ~ In JS.dot (list_ascii_of_string format)
       | FolderEntry f => ~ In JS.slash (list_ascii_of_string (folder_title f))
       end)
    (results r).
Proof.
  destruct (listResources_fulfilled w ctx r H) as (_ & _ & files & response & _ & Hr).
  cbv zeta in Hr. subst r. cbn [results].
  apply Forall_app. split; apply Forall_forall; intros e He.
  - unfold resFiles in He. apply in_map_iff in He. destruct He as (f & <- & _).
    destruct (resource_of_file_characters f) as (t & fm & -> & Ht & Hf1 & Hf2).
    auto.
  - unfold foldersFromPrefixes in He. apply in_map_iff in He.
    destruct He as (p & <- & _).
    destruct (folder_title_no_slash p) as (t & -> & Ht). exact Ht.
Qed.

Lemma listing_titles_and_formats_witness :
  Forall
    (fun e =>
       match e with
       | ResourceEntry _ title _ format _ =>
           ~ In JS.slash (list_ascii_of_string title) /\
           ~ In JS.slash (list_ascii_of_string format) /\
           ~ In JS.dot (list_ascii_of_string format)
       | FolderEntry f => ~ In JS.slash (list_ascii_of_string (folder_title f))
       end)
    (results Sample.docs_result).
Proof.
  exact (listing_titles_and_formats Sample.docs_world
           (Sample.listing Sample.with_secret (Some "docs/") None)
           Sample.docs_result eq_refl).
Defined.

(* ===================================================================== *)
(** * More on the breadcrumb *)
(* ===================================================================== *)

(** No segment of a split holds the separator. *)
Lemma split_no_separator (c : ascii) (s : string) :
  Forall (fun seg => ~ In c (list_ascii_of_string seg)) (JS.split c s).
Proof.
  induction s as [|a s IH]; cbn [JS.split].
  - constructor; [intros [] | constructor].
  - destruct (Ascii.eqb_spec a c) as [-> | Ha].
    + constructor; [intros [] | exact IH].
    + destruct (JS.split c s) as [|h t]; inversion IH; subst.
      * constructor; [|constructor]. intros [H | []]. now apply Ha.
      * constructor; [|assumption]. intros [Hx | Hx]; [now apply Ha | contradiction].
Qed.

Lemma split_join (segs : list string) :
  segs <> [] ->
  Forall (fun seg => ~ In JS.slash (list_ascii_of_string seg)) segs ->
  JS.split JS.slash (JS.join "/" segs) = segs.
Proof.
  unfold JS.join. induction segs as [|a segs IH]; intros Hne Hall; [contradiction|].
  inversion Hall as [|? ? Ha Hrest]; subst.
  destruct segs as [|b segs].
  - cbn [String.concat]. now apply split_absent.
  - change (String.concat "/" (a :: b :: segs))
      with (a ++ String JS.slash (String.concat "/" (b :: segs))).
    rewrite split_append, split_absent by exact Ha.
    rewrite IH by (try discriminate; exact Hrest). reflexivity.
Qed.

(** A well-formed folder id gives back its segments. *)
Lemma nonempty_segments_join (segs : list string) :
  segs <> [] ->
  Forall (fun seg => seg <> "" /\ ~ In JS.slash (list_ascii_of_string seg)) segs ->
  Spec.nonempty_segments (JS.join "/" segs ++ "/") = segs.
Proof.
  intros Hne Hall. unfold Spec.nonempty_segments.
  change (JS.join "/" segs ++ "/") with (JS.join "/" segs ++ String JS.slash "").
  rewrite split_append, split_join; [| exact Hne |].
  - rewrite filter_app. cbn [JS.split filter String.eqb negb]. rewrite app_nil_r.
    apply forallb_filter_id. apply forallb_forall. intros seg Hs.
    rewrite Forall_forall in Hall. destruct (Hall seg Hs) as [Hn _].
    now destruct (String.eqb_spec seg "").
  - eapply Forall_impl; [|exact Hall]. now intros seg [_ Hs].
Qed.

Lemma breadcrumb_from_titles (parent : string) (segs : list string) :
  map folder_title (Spec.breadcrumb_from parent segs) = segs.
Proof.
  revert parent. induction segs as [|s segs IH]; intro parent; cbn;
    [reflexivity | now rewrite IH].
Qed.

Lemma breadcrumb_from_last (segs : list string) :
  forall (parent : string) (d : Folder),
    segs <> [] ->
    folder_id (last (Spec.breadcrumb_from parent segs) d)
    = parent ++ JS.join "/" segs ++ "/".
Proof.
  induction segs as [|s segs IH]; intros parent d Hne; [contradiction|].
  destruct segs as [|s' segs]; [reflexivity|].
  change (Spec.breadcrumb_from parent (s :: s' :: segs))
    with ({| folder_id := parent ++ s ++ "/"; folder_title := s |}
          :: Spec.breadcrumb_from (parent ++ s ++ "/") (s' :: segs)).
  change (last (?x :: Spec.breadcrumb_from ?p (s' :: segs)) d)
    with (last (Spec.breadcrumb_from p (s' :: segs)) d).
  rewrite IH by discriminate.
  change (JS.join "/" (s :: s' :: segs)) with (s ++ "/" ++ JS.join "/" (s' :: segs)).
  now rewrite !append_assoc.
Qed.

Lemma breadcrumb_from_ids (segs : list string) :
  forall parent : string,
    Forall (fun f => exists x, folder_id f = x ++ folder_title f ++ "/")
      (Spec.breadcrumb_from parent segs).
Proof.
  induction segs as [|s segs IH]; intro parent; cbn; constructor.
  - now exists parent.
  - apply IH.
Qed.

(** The path of a listing, from the folder id the caller gave. *)
Lemma listing_path (w : World) (ctx : ListResourcesContext.t) (r : ListResult) :
  settled (listResources w ctx) = Fulfilled r ->
  path r
  = Spec.breadcrumb_from ""
      (Spec.nonempty_segments
         (str (Params.currentFolderId (ListResourcesContext.params ctx)))).
Proof.
  intro H.
  destruct (listResources_fulfilled w ctx r H) as (_ & _ & files & response & _ & Hr).
  cbv zeta in Hr. rewrite Hr. cbn [path]. now rewrite foldPath_breadcrumb.
Qed.

(** X10.  For a well-formed current folder id (non-empty segments joined
    and closed by ["/"]), the breadcrumb of a listing has one folder per
    segment, titled by the segments in order, and its last folder is the
    current folder itself. *)
Theorem breadcrumb_reaches_current_folder (w : World) (ctx : ListResourcesContext.t)
    (r : ListResult) (segs : list string)
    (H : settled (listResources w ctx) = Fulfilled r)
    (Hcur : Params.currentFolderId (ListResourcesContext.params ctx)
            = Some (JS.join "/" segs ++ "/"))
    (Hne : segs <> [])
    (Hwf : Forall (fun seg => seg <> "" /\ ~ In JS.slash (list_ascii_of_string seg)) segs) :
  map folder_title (path r) = segs /\
  forall d : Folder, folder_id (last (path r) d) = JS.join "/" segs ++ "/".
Proof.
  rewrite (listing_path w ctx r H), Hcur. cbn [str].
  rewrite (nonempty_segments_join segs Hne Hwf). split.
  - apply breadcrumb_from_titles.
  - intro d. now rewrite breadcrumb_from_last.
Qed.

Lemma breadcrumb_reaches_current_folder_witness :
  map folder_title (path Sample.docs_result) = ["docs"].
Proof.
  refine (proj1 (breadcrumb_reaches_current_folder Sample.docs_world
                   (Sample.listing Sample.with_secret (Some "docs/") None)
                   Sample.docs_result ["docs"] eq_refl eq_refl _ _)).
  - discriminate.
  - constructor; [|constructor]. split; [discriminate|].
    cbn. intros [H | [H | [H | [H | []]]]]; discriminate.
Defined.

(** X11.  Whatever the current folder id, every folder of the breadcrumb
    has a non-empty title without slash and an id that ends with that title
    and a slash; the titles are the non-empty segments of the folder id, so
    doubled or leading slashes add no level. *)
Theorem breadcrumb_folders_well_formed (w : World) (ctx : ListResourcesContext.t)
    (r : ListResult) (H : settled (listResources w ctx) = Fulfilled r) :
  Forall
    (fun f =>
       folder_title f <> "" /\
       ~ In JS.slash (list_ascii_of_string (folder_title f)) /\
       exists x, folder_id f = x ++ folder_title f ++ "/")
    (path r) /\
  map folder_title (path r)
  = filter (fun seg => negb (String.eqb seg ""))
      (JS.split JS.slash (str (Params.currentFolderId (ListResourcesContext.params ctx)))).
Proof.
  rewrite (listing_path w ctx r H).
  set (segs := Spec.nonempty_segments
                 (str (Params.currentFolderId (ListResourcesContext.params ctx)))).
  split; [|apply breadcrumb_from_titles].
  pose proof (breadcrumb_from_ids segs "") as Hids.
  pose proof (breadcrumb_from_titles "" segs) as Ht.
  rewrite Forall_forall in Hids |- *. intros f Hf.
  assert (Hin : In (folder_title f) segs).
  { rewrite <- Ht. now apply in_map. }
  unfold segs, Spec.nonempty_segments in Hin. apply filter_In in Hin.
  destruct Hin as [Hsplit Hnonempty].
  repeat split.
  - apply negb_true_iff in Hnonempty. now apply String.eqb_neq in Hnonempty.
  - pose proof (split_no_separator JS.slash
                  (str (Params.currentFolderId (ListResourcesContext.params ctx))))
      as Hs.
    rewrite Forall_forall in Hs. now apply Hs.
  - now apply Hids.
Qed.

Lemma breadcrumb_folders_well_formed_witness :
  Forall
    (fun f =>
       folder_title f <> "" /\
       ~ In JS.slash (list_ascii_of_string (folder_title f)) /\
       exists x, folder_id f = x ++ folder_title f ++ "/")
    (path Sample.docs_result).
Proof.
  exact (proj1 (breadcrumb_folders_well_formed Sample.docs_world
                  (Sample.listing Sample.with_secret (Some "docs/") None)
                  Sample.docs_result eq_refl)).
Defined.

(* ===================================================================== *)
(** * More on [getResource] *)
(* ===================================================================== *)

Lemma on_data_run {S : Type} (log : Log) (task : string) (l : list Z) :
  forall (n : Z) (s : S),
    on_data log task l n s
    = (Normal (failed_reports log task (running_sums n l)), s,
       map (EvLogProgress task) (running_sums n l)).
Proof.
  unfold failed_reports.
  induction l as [|c l IH]; intros n s; cbn [on_data running_sums map flat_map].
  - reflexivity.
  - unfold bind, attempt, ret. rewrite IH. cbn [app].
    rewrite app_nil_r. now destruct (log_progress log task (n + c)).
Qed.

(** The [catch] block of [getResource]: what [log.error] does decides. *)
Ltac run_catch :=
  unfold surfaced, caught;
  destruct (log_error _ _); [|destruct (log_error_thrown _ _)]; reflexivity.

(** The whole of [getResource] once a secret is there. *)
Lemma getResource_run (w : World) (ctx : GetResourceContext.t) :
  let secret := Secrets.serviceAccount (GetResourceContext.secrets ctx) in
  let log := GetResourceContext.log ctx in
  let id := GetResourceContext.resourceId ctx in
  let bucket := Config.bucketName (GetResourceContext.catalogConfig ctx) in
  let fileName := fileName_of id in
  let filePath := path_join w (GetResourceContext.tmpDir ctx) fileName in
  let step := EvLogStep ("Téléchargement du fichier : " ++ fileName) in
  let stream := file_createReadStream w bucket id in
  JS.truthy secret = true ->
  getResource w ctx
  = match new_Storage w (str secret) with
    | Throw e =>
        (Rejected (surfaced log e), ctx,
         EvNewStorage (str secret) :: caught e)
    | Normal _ =>
    match log_step log ("Téléchargement du fichier : " ++ fileName) with
    | Throw e =>
        (Rejected (surfaced log e), ctx,
         EvNewStorage (str secret) :: step :: caught e)
    | Normal _ =>
    match file_getMetadata w bucket id with
    | Throw e =>
        (Rejected (surfaced log e), ctx,
         EvNewStorage (str secret) :: step :: EvGetMetadata bucket id :: caught e)
    | Normal m =>
    let task := EvLogTask ("download " ++ id) "Progression" (sizeNum w m) in
    match log_task log ("download " ++ id) "Progression" (sizeNum w m) with
    | Throw e =>
        (Rejected (surfaced log e), ctx,
         EvNewStorage (str secret) :: step :: EvGetMetadata bucket id :: task :: caught e)
    | Normal _ =>
        (match ending stream with
         | StreamFinish =>
             match failed_reports log ("download " ++ id) (running_sums 0 (chunks stream)),
                   fs_createWriteStream w filePath with
             | [], StreamFinish =>
                 Fulfilled
                   {| res_id := id;
                      res_title :=
                        NodePath.basename_suffix fileName (NodePath.extname fileName);
                      res_filePath := filePath;
                      res_format := JS.substring_from (NodePath.extname fileName) 1 |}
             | _, _ => Pending
             end
         | StreamError e =>
             match log_error log ("Error during download: " ++ message e) with
             | Normal _ => Rejected e
             | Throw _ => Pending
             end
         end,
         ctx,
         EvNewStorage (str secret) :: step :: EvGetMetadata bucket id :: task
         :: EvCreateReadStream bucket id :: EvCreateWriteStream filePath
         :: (map (EvLogProgress ("download " ++ id)) (running_sums 0 (chunks stream))
             ++ match ending stream with
                | StreamFinish => []
                | StreamError e => [EvLogError ("Error during download: " ++ message e)]
                end)%list)
    end end end end.
Proof.
  intros secret log id bucket fileName filePath step stream Hs.
  run_getResource. fold secret log id bucket. rewrite Hs. download_fields.
  fold (fileName_of id). fold fileName. fold filePath.
  destruct (new_Storage w (str secret)) as [u|e0]; [|run_catch].
  destruct (log_step log _) as [u1|e1]; [|run_catch].
  destruct (file_getMetadata w bucket id) as [m|e2]; [|run_catch].
  destruct (log_task log _ _ _) as [u3|e3]; [|run_catch].
  unfold download_promise, bind, emit, call, attempt, ret.
  rewrite on_data_run. fold stream.
  destruct (ending stream) as [|e].
  - destruct (failed_reports log _ _); [destruct (fs_createWriteStream w filePath)|];
      cbn [app]; now rewrite app_nil_r.
  - destruct (log_error log _); reflexivity.
Qed.

Lemma progress_values_reports (task : string) (l : list Z) (rest : list Event) :
  progress_values (map (EvLogProgress task) l ++ rest) = (l ++ progress_values rest)%list.
Proof. induction l as [|x l IH]; cbn; [reflexivity | now rewrite IH]. Qed.

Lemma written_files_reports (task : string) (l : list Z) (rest : list Event) :
  written_files (map (EvLogProgress task) l ++ rest) = written_files rest.
Proof. induction l as [|x l IH]; cbn; [reflexivity | exact IH]. Qed.

Lemma last_running_sums (l : list Z) :
  forall n d : Z, l <> [] -> last (running_sums n l) d = fold_left Z.add l n.
Proof.
  induction l as [|x l IH]; intros n d Hne; [contradiction|].
  destruct l as [|y l]; [reflexivity|].
  change (fold_left Z.add (x :: y :: l) n) with (fold_left Z.add (y :: l) (n + x)).
  rewrite <- (IH (n + x) d) by discriminate. reflexivity.
Qed.

Lemma last_cons_default {A : Type} (l : list A) :
  forall (x d d' : A), last (x :: l) d = last (x :: l) d'.
Proof.
  induction l as [|y l IH]; intros x d d'; [reflexivity|].
  change (last (x :: y :: l) d) with (last (y :: l) d).
  change (last (x :: y :: l) d') with (last (y :: l) d'). apply IH.
Qed.

Lemma last_app_cons {A : Type} (l1 : list A) (x : A) (l2 : list A) (d d' : A) :
  last (l1 ++ x :: l2) d = last (x :: l2) d'.
Proof.
  induction l1 as [|a l1 IH]; [apply last_cons_default|].
  cbn [app]. destruct (l1 ++ x :: l2)%list eqn:E; [now destruct l1|].
  change (last (a :: a0 :: l) d) with (last (a0 :: l) d). exact IH.
Qed.

Lemma length_running_sums (l : list Z) :
  forall n : Z, List.length (running_sums n l) = List.length l.
Proof. induction l as [|x l IH]; intro n; cbn; [reflexivity | now rewrite IH]. Qed.

(** What the trace tells when the stream has not been opened. *)
Lemma getResource_not_opened (w : World) (ctx : GetResourceContext.t) :
  stream_opened (trace (getResource w ctx)) = false ->
  progress_values (trace (getResource w ctx)) = [] /\
  written_files (trace (getResource w ctx)) = [] /\
  exists e, settled (getResource w ctx) = Rejected e.
Proof.
  destruct (JS.truthy (Secrets.serviceAccount (GetResourceContext.secrets ctx))) eqn:Hs.
  - rewrite (getResource_run w ctx Hs).
    destruct (new_Storage w _); [|cbn; eauto].
    destruct (log_step _ _); [|cbn; eauto].
    destruct (file_getMetadata w _ _); [|cbn; eauto].
    destruct (log_task _ _ _ _); [|cbn; eauto].
    cbn. discriminate.
  - rewrite (getResource_unauthenticated w ctx Hs). cbn. eauto.
Qed.

(** What it tells when it has. *)
Lemma getResource_opened (w : World) (ctx : GetResourceContext.t) :
  let log := GetResourceContext.log ctx in
  let id := GetResourceContext.resourceId ctx in
  let bucket := Config.bucketName (GetResourceContext.catalogConfig ctx) in
  let filePath := path_join w (GetResourceContext.tmpDir ctx) (fileName_of id) in
  let stream := file_createReadStream w bucket id in
  stream_opened (trace (getResource w ctx)) = true ->
  progress_values (trace (getResource w ctx)) = running_sums 0 (chunks stream) /\
  written_files (trace (getResource w ctx)) = [filePath] /\
  settled (getResource w ctx)
  = match ending stream with
    | StreamFinish =>
        match failed_reports log ("download " ++ id) (running_sums 0 (chunks stream)),
              fs_createWriteStream w filePath with
        | [], StreamFinish =>
            Fulfilled
              {| res_id := id;
                 res_title :=
                   NodePath.basename_suffix (fileName_of id)
                     (NodePath.extname (fileName_of id));
                 res_filePath := filePath;
                 res_format := JS.substring_from (NodePath.extname (fileName_of id)) 1 |}
        | _, _ => Pending
        end
    | StreamError e =>
        match log_error log ("Error during download: " ++ message e) with
        | Normal _ => Rejected e
        | Throw _ => Pending
        end
    end /\
  last (trace (getResource w ctx)) (EvConsoleError "")
  = match ending stream with
    | StreamFinish =>
        last (map (EvLogProgress ("download " ++ id)) (running_sums 0 (chunks stream)))
          (EvCreateWriteStream filePath)
    | StreamError e => EvLogError ("Error during download: " ++ message e)
    end.
Proof.
  intros log id bucket filePath stream.
  destruct (JS.truthy (Secrets.serviceAccount (GetResourceContext.secrets ctx))) eqn:Hs.
  - rewrite (getResource_run w ctx Hs). fold log id bucket filePath stream.
    destruct (new_Storage w _); [|cbn; discriminate].
    destruct (log_step _ _); [|cbn; discriminate].
    destruct (file_getMetadata w _ _) as [m|]; [|cbn; discriminate].
    destruct (log_task _ _ _ _); [|cbn; discriminate].
    intros _. cbn [trace settled fst snd progress_values written_files].
    rewrite progress_values_reports, written_files_reports.
    repeat split.
    + destruct (ending stream); cbn; now rewrite app_nil_r.
    + now destruct (ending stream).
    + set (reports := map (EvLogProgress ("download " ++ id))
                        (running_sums 0 (chunks stream))).
      destruct (ending stream) as [|e].
      * rewrite app_nil_r.
        destruct reports as [|x reports]; [reflexivity|].
        change (?a :: ?b :: ?c :: ?d :: ?e1 :: ?f :: x :: reports)
          with ([a; b; c; d; e1; f] ++ x :: reports)%list.
        apply last_app_cons.
      * change (?a :: ?b :: ?c :: ?d :: ?e1 :: ?f :: (reports ++ [?z])%list)
          with ((a :: b :: c :: d :: e1 :: f :: reports) ++ [z])%list.
        apply last_last.
  - rewrite (getResource_unauthenticated w ctx Hs). cbn. discriminate.
Qed.

(** X12.  Once the stream is opened, the progress reported to the log is
    cumulative: the values are the sums of the lengths of the first one,
    two, ... chunks, one report per chunk, and the last one is the total
    number of bytes delivered. *)
Theorem download_progress_cumulative (w : World) (ctx : GetResourceContext.t)
    (Hop : stream_opened (trace (getResource w ctx)) = true) :
  let stream :=
    file_createReadStream w (Config.bucketName (GetResourceContext.catalogConfig ctx))
      (GetResourceContext.resourceId ctx) in
  progress_values (trace (getResource w ctx)) = running_sums 0 (chunks stream) /\
  List.length (progress_values (trace (getResource w ctx)))
  = List.length (chunks stream) /\
  last (progress_values (trace (getResource w ctx))) 0 = fold_left Z.add (chunks stream) 0.
Proof.
  intro stream.
  destruct (getResource_opened w ctx Hop) as (Hp & _). fold stream in Hp.
  rewrite Hp. split; [reflexivity|]. split.
  - apply length_running_sums.
  - destruct (chunks stream) as [|x l] eqn:E; [reflexivity|].
    apply last_running_sums. discriminate.
Qed.

Lemma download_progress_cumulative_witness :
  progress_values
    (trace (getResource Sample.root_world
              (Sample.download Sample.with_secret "folder1/file1.csv")))
  = [10; 30].
Proof.
  exact (proj1 (download_progress_cumulative Sample.root_world
                  (Sample.download Sample.with_secret "folder1/file1.csv") eq_refl)).
Defined.

(** With a secret set, a call rejected before the stream of the object is
    opened (the client cannot be built, the metadata cannot be fetched, a
    notification fails) is rejected with the DownloadFailed message, unless
    the [log.error] of the [catch] block throws. *)
Lemma getResource_failure_caught (w : World) (ctx : GetResourceContext.t) (e : Error) :
  JS.truthy (Secrets.serviceAccount (GetResourceContext.secrets ctx)) = true ->
  stream_opened (trace (getResource w ctx)) = false ->
  settled (getResource w ctx) = Rejected e ->
  e = {| message := MSG_DOWNLOAD_FAILED |} \/
  exists msg,
    log_error (GetResourceContext.log ctx) msg = Throw e /\
    log_error_thrown (GetResourceContext.log ctx) msg = true.
Proof.
  intros Hs. rewrite (getResource_run w ctx Hs).
  assert (Hc : forall e0,
             surfaced (GetResourceContext.log ctx) e0 = e ->
             e = {| message := MSG_DOWNLOAD_FAILED |} \/
             exists msg,
               log_error (GetResourceContext.log ctx) msg = Throw e /\
               log_error_thrown (GetResourceContext.log ctx) msg = true).
  { intros e0. unfold surfaced.
    destruct (log_error _ _) as [u|e1] eqn:Hl;
      [|destruct (log_error_thrown _ _) eqn:Ht];
      intros <-; eauto. }
  destruct (new_Storage w _); [|intros _ [= H]; exact (Hc _ H)].
  destruct (log_step _ _); [|intros _ [= H]; exact (Hc _ H)].
  destruct (file_getMetadata w _ _); [|intros _ [= H]; exact (Hc _ H)].
  destruct (log_task _ _ _ _); [|intros _ [= H]; exact (Hc _ H)].
  cbn. discriminate.
Qed.




(** X14.  When the stream of the object fails, the caller gets the stream's
    own error, not the DownloadFailed message, provided the error could be
    logged; if logging it fails too, the promise is never settled.  The
    error log is the last call made, and the file opened for writing is
    left as it is. *)
Theorem download_stream_error (w : World) (ctx : GetResourceContext.t) (e : Error)
    (Hop : stream_opened (trace (getResource w ctx)) = true)
    (He : ending (file_createReadStream w
                    (Config.bucketName (GetResourceContext.catalogConfig ctx))
                    (GetResourceContext.resourceId ctx)) = StreamError e) :
  let logged :=
    log_error (GetResourceContext.log ctx) ("Error during download: " ++ message e) in
  settled (getResource w ctx)
  = match logged with Normal _ => Rejected e | Throw _ => Pending end /\
  last (trace (getResource w ctx)) (EvConsoleError "")
  = EvLogError ("Error during download: " ++ message e) /\
  written_files (trace (getResource w ctx))
  = [path_join w (GetResourceContext.tmpDir ctx)
       (fileName_of (GetResourceContext.resourceId ctx))].
Proof.
  destruct (getResource_opened w ctx Hop) as (_ & Hw & Hset & Hlast).
  rewrite He in Hset, Hlast. now repeat split.
Qed.

Lemma download_stream_error_witness :
  settled (getResource Sample.broken_stream_world
             (Sample.download Sample.with_secret "folder1/file1.csv"))
  = Rejected {| message := "socket hang up" |}.
Proof.
  exact (proj1 (download_stream_error Sample.broken_stream_world
                  (Sample.download Sample.with_secret "folder1/file1.csv")
                  {| message := "socket hang up" |} eq_refl eq_refl)).
Defined.

(** X15.  When [getResource] is fulfilled, the resource it returns has the
    id it was asked for; the object was stored in one file, whose path is
    [tmpDir] joined with the part of the id that follows its last slash (the
    whole id when it has none); and the stream ended without error. *)
Theorem download_result (w : World) (ctx : GetResourceContext.t) (r : Resource)
    (H : settled (getResource w ctx) = Fulfilled r) :
  let id := GetResourceContext.resourceId ctx in
  res_id r = id /\
  (exists dir fileName,
     id = dir ++ fileName /\
     ~ In JS.slash (list_ascii_of_string fileName) /\
     (dir = "" \/ exists dir', dir = dir' ++ "/") /\
     res_filePath r = path_join w (GetResourceContext.tmpDir ctx) fileName /\
     written_files (trace (getResource w ctx)) = [res_filePath r]) /\
  ending (file_createReadStream w
            (Config.bucketName (GetResourceContext.catalogConfig ctx)) id)
  = StreamFinish /\
  JS.truthy (Secrets.serviceAccount (GetResourceContext.secrets ctx)) = true.
Proof.
  intro id.
  destruct (stream_opened (trace (getResource w ctx))) eqn:Hop.
  2:{ destruct (getResource_not_opened w ctx Hop) as (_ & _ & e & He). congruence. }
  destruct (getResource_opened w ctx Hop) as (_ & Hw & Hset & _).
  fold id in Hw, Hset. rewrite H in Hset.
  destruct (ending (file_createReadStream w _ id)) as [|e].
  2:{ destruct (log_error _ _); discriminate. }
  destruct (failed_reports _ _ _); [destruct (fs_createWriteStream w _)|];
    try discriminate.
  injection Hset as ->. cbn [res_id res_filePath].
  split; [reflexivity|]. split.
  - destruct (tail_decomposition id) as (dir & fileName & Hid & Hns & Hdir).
    exists dir, fileName.
    assert (Hfn : fileName_of id = fileName).
    { unfold fileName_of. rewrite Hid. now apply substring_after_last_slash. }
    rewrite Hfn in *. now repeat split.
  - split; [reflexivity|].
    destruct (JS.truthy (Secrets.serviceAccount (GetResourceContext.secrets ctx)))
      eqn:Hs; [reflexivity|].
    rewrite (getResource_unauthenticated w ctx Hs) in H. discriminate.
Qed.

Lemma download_result_witness :
  written_files
    (trace (getResource Sample.root_world
              (Sample.download Sample.with_secret "folder1/file1.csv")))
  = ["/tmp/file1.csv"].
Proof.
  destruct (download_result Sample.root_world
              (Sample.download Sample.with_secret "folder1/file1.csv")
              {| res_id := "folder1/file1.csv"; res_title := "file1";
                 res_filePath := "/tmp/file1.csv"; res_format := "csv" |} eq_refl)
    as (_ & (dir & fileName & _ & _ & _ & _ & Hw) & _).
  exact Hw.
Defined.

(** X16.  [getResource] opens at most one file for writing, and none as
    long as the stream of the object is not opened: a call refused or
    failing before that leaves the temporary directory untouched. *)
Theorem download_writes_one_file (w : World) (ctx : GetResourceContext.t) :
  written_files (trace (getResource w ctx))
  = if stream_opened (trace (getResource w ctx))
    then [path_join w (GetResourceContext.tmpDir ctx)
            (fileName_of (GetResourceContext.resourceId ctx))]
    else [].
Proof.
  destruct (stream_opened (trace (getResource w ctx))) eqn:Hop.
  - now destruct (getResource_opened w ctx Hop) as (_ & Hw & _).
  - now destruct (getResource_not_opened w ctx Hop) as (_ & Hw & _).
Qed.

(* ===================================================================== *)
(** * Title and format of a downloaded file *)
(* ===================================================================== *)

(** [path.extname] of a path cut at its last component: nothing, or the
    last dot of the component and what follows, when something precedes
    that dot. *)
Section ExtensionOfComponent.

Variables pre comp sl : string.
Hypothesis Hne : comp <> "".
Hypothesis Hns : ~ In JS.slash (list_ascii_of_string comp).
Hypothesis Hsl : Forall (eq JS.slash) (list_ascii_of_string sl).
Hypothesis Hpre : pre = "" \/ exists pre', pre = pre' ++ "/".

Lemma extname_decomposed :
  NodePath.extname (pre ++ comp ++ sl) = "" \/
  exists u v,
    comp = u ++ String JS.dot v /\ u <> "" /\
    ~ In JS.dot (list_ascii_of_string v) /\
    NodePath.extname (pre ++ comp ++ sl) = String JS.dot v.
Proof.
  unfold NodePath.extname.
  rewrite rev_list_of_decomposed.
  rewrite extname_loop_slashes by (try apply Forall_rev; easy).
  destruct (extname_loop_decomposed (list_ascii_of_string pre)
              (list_ascii_of_string comp)) as (st' & Hinv & He & Hsd & Hpd & Hsp);
    [now apply list_of_nonempty | exact Hns | now apply list_of_ends_with_slash |].
  rewrite He, Hsd, Hpd, Hsp. clear He Hsd Hpd Hsp.
  rewrite !length_list_of, Nat2Z.inj_add in *.
  fold (JS.len pre) in *. fold (JS.len comp) in *.
  pose proof (len_nonneg pre) as Hlp. pose proof (len_nonneg comp) as Hlc.
  destruct Hinv as (He & _ & _ & Hd). rewrite He.
  destruct Hd as [(Hno & Hsd & Hpd) | (rv & ru & Hdone & Hno & Hsd & Hpd0 & Hpd1)].
  - left. rewrite Hsd. reflexivity.
  - apply split_at_last_dot in Hdone.
    set (u := string_of_list_ascii (rev ru)) in *.
    set (v := string_of_list_ascii (rev rv)) in *.
    assert (Hv : ~ In JS.dot (list_ascii_of_string v)).
    { unfold v. rewrite list_ascii_of_string_of_list_ascii. intro H.
      apply Hno. now apply in_rev. }
    assert (Hlv : JS.len v = Z.of_nat (List.length rv)).
    { unfold v, JS.len. now rewrite <- length_list_of,
        list_ascii_of_string_of_list_ascii, length_rev. }
    match goal with |- (if ?b then _ else _) = _ \/ _ => destruct b eqn:Hb end;
      [now left | right].
    exists u, v.
    assert (Hu : u <> "").
    { intro Hu. destruct ru as [|r ru'].
      - rewrite Hpd0 in Hb by reflexivity.
        rewrite !orb_false_iff in Hb. now destruct Hb as [[_ Hb] _].
      - apply (f_equal String.length) in Hu. unfold u in Hu.
        rewrite <- length_list_of, list_ascii_of_string_of_list_ascii, length_rev in Hu.
        discriminate. }
    repeat split; try assumption.
    rewrite Hsd, <- Hlv, Hdone.
    replace (pre ++ (u ++ String JS.dot v) ++ sl)
      with ((pre ++ u) ++ ("." ++ v) ++ sl)
      by (now rewrite !append_assoc).
    replace (JS.len pre + JS.len (u ++ String JS.dot v) - JS.len v - 1)
      with (JS.len (pre ++ u)).
    2:{ rewrite !len_append, len_cons. lia. }
    replace (JS.len pre + JS.len (u ++ String JS.dot v))
      with (JS.len (pre ++ u) + JS.len ("." ++ v))
      by (rewrite !len_append, !len_cons; change (JS.len "") with 0; lia).
    apply slice_middle.
Qed.

End ExtensionOfComponent.

(** The character of a string that follows a given prefix. *)
Lemma get_after_prefix (a : list ascii) (c : ascii) (b : list ascii) (s : string) :
  list_ascii_of_string s = (a ++ c :: b)%list ->
  String.get (List.length a) s = Some c.
Proof.
  revert s. induction a as [|x a IH]; intros [|y s] H; try discriminate.
  - cbn in H. now injection H as -> _.
  - cbn in H. injection H as -> H. cbn. now apply IH.
Qed.

(** Once the suffix is matched or given up, and a character has been seen,
    the characters of the component change nothing. *)
Lemma suffix_loop_settled (suffix : string) (rl : list ascii) (st : NodePath.suffix_state) :
  ~ In JS.slash rl ->
  NodePath.sx_extIdx st = -1 ->
  NodePath.sx_firstNonSlashEnd st <> -1 ->
  NodePath.suffix_loop suffix rl st = st.
Proof.
  revert st. induction rl as [|c rl IH]; intros st Hns He Hf; [reflexivity|].
  cbn [NodePath.suffix_loop].
  destruct (Ascii.eqb_spec c JS.slash) as [-> | Hc]; [exfalso; apply Hns; now left|].
  assert (Hstep : NodePath.suffix_char suffix c (Z.of_nat (List.length rl)) st = st).
  { unfold NodePath.suffix_char.
    destruct (Z.eqb_spec (NodePath.sx_firstNonSlashEnd st) (-1)) as [|_]; [contradiction|].
    rewrite He. reflexivity. }
  rewrite Hstep. apply IH; [|assumption..].
  intro H. apply Hns. now right.
Qed.

(** While the characters read are those of the suffix, from its last one,
    the index in the suffix goes down; when the suffix is exhausted the end
    of the name is the index of its first character. *)
Lemma suffix_loop_matching (suffix : string) (rl1 : list ascii) :
  forall (e2 rest : list ascii) (st : NodePath.suffix_state),
    list_ascii_of_string suffix = (rev rl1 ++ e2)%list ->
    rl1 <> [] ->
    ~ In JS.slash rl1 ->
    NodePath.sx_extIdx st = Z.of_nat (List.length rl1) - 1 ->
    exists st',
      NodePath.suffix_loop suffix (rl1 ++ rest) st = NodePath.suffix_loop suffix rest st' /\
      NodePath.sx_start st' = NodePath.sx_start st /\
      NodePath.sx_extIdx st' = -1 /\
      NodePath.sx_end st' = Z.of_nat (List.length rest) /\
      NodePath.sx_firstNonSlashEnd st' <> -1.
Proof.
  induction rl1 as [|c rl1 IH]; intros e2 rest st Hsuf Hne Hns He; [contradiction|].
  cbn [app NodePath.suffix_loop].
  destruct (Ascii.eqb_spec c JS.slash) as [-> | Hc]; [exfalso; apply Hns; now left|].
  cbn [rev] in Hsuf. rewrite <- app_assoc in Hsuf. cbn [app] in Hsuf.
  pose proof (get_after_prefix _ _ _ _ Hsuf) as Hget. rewrite length_rev in Hget.
  cbn [List.length] in He.
  set (i := Z.of_nat (List.length (rl1 ++ rest))).
  set (st1 := if NodePath.sx_firstNonSlashEnd st =? -1
              then {| NodePath.sx_start := NodePath.sx_start st;
                      NodePath.sx_end := NodePath.sx_end st;
                      NodePath.sx_matchedSlash := false;
                      NodePath.sx_extIdx := NodePath.sx_extIdx st;
                      NodePath.sx_firstNonSlashEnd := i + 1 |}
              else st).
  assert (H1 : NodePath.sx_start st1 = NodePath.sx_start st /\
               NodePath.sx_extIdx st1 = Z.of_nat (List.length rl1) /\
               NodePath.sx_firstNonSlashEnd st1 <> -1).
  { unfold st1.
    destruct (Z.eqb_spec (NodePath.sx_firstNonSlashEnd st) (-1)) as [|Hf];
      cbn [NodePath.sx_start NodePath.sx_extIdx NodePath.sx_firstNonSlashEnd];
      repeat split; try lia; try assumption. }
  destruct H1 as (Hs1 & He1 & Hf1).
  set (st2 := {| NodePath.sx_start := NodePath.sx_start st1;
                 NodePath.sx_end := if NodePath.sx_extIdx st1 - 1 =? -1 then i
                                    else NodePath.sx_end st1;
                 NodePath.sx_matchedSlash := NodePath.sx_matchedSlash st1;
                 NodePath.sx_extIdx := NodePath.sx_extIdx st1 - 1;
                 NodePath.sx_firstNonSlashEnd := NodePath.sx_firstNonSlashEnd st1 |}).
  assert (Hstep : NodePath.suffix_char suffix c i st = st2).
  { unfold NodePath.suffix_char. fold st1.
    rewrite He1.
    replace (0 <=? Z.of_nat (List.length rl1)) with true by (symmetry; apply Z.leb_le; lia).
    rewrite Nat2Z.id, Hget, Ascii.eqb_refl. unfold st2. now rewrite He1. }
  rewrite Hstep.
  destruct rl1 as [|c' rl1'].
  - exists st2. cbn [app]. unfold st2.
    cbn [NodePath.sx_start NodePath.sx_extIdx NodePath.sx_end NodePath.sx_firstNonSlashEnd].
    rewrite He1. cbn [List.length Z.of_nat]. cbn [app] in i.
    repeat split; try assumption; reflexivity.
  - destruct (IH (c :: e2) rest st2) as (st' & Hl & Hs' & He' & Hend & Hf').
    + exact Hsuf.
    + discriminate.
    + intro H. apply Hns. now right.
    + unfold st2. cbn [NodePath.sx_extIdx]. now rewrite He1.
    + exists st'. repeat split; try assumption.
      rewrite Hs'. unfold st2. cbn [NodePath.sx_start]. exact Hs1.
Qed.

(** [path.basename(name, ext)] takes the extension off a name without
    slash that ends with it and is longer than it. *)
Lemma basename_suffix_strips (u e : string) :
  u <> "" -> e <> "" ->
  ~ In JS.slash (list_ascii_of_string (u ++ e)) ->
  NodePath.basename_suffix (u ++ e) e = u.
Proof.
  intros Hu He Hns.
  unfold NodePath.basename_suffix.
  pose proof (len_nonneg u) as Hlu. pose proof (len_nonneg e) as Hle.
  assert (Hlu' : 0 < JS.len u).
  { destruct u; [contradiction|]. rewrite len_cons. pose proof (len_nonneg u). lia. }
  assert (Hle' : 0 < JS.len e).
  { destruct e; [contradiction|]. rewrite len_cons. pose proof (len_nonneg e). lia. }
  replace ((0 <? JS.len e) && (JS.len e <=? JS.len (u ++ e))) with true.
  2:{ symmetry. apply andb_true_iff. split; [apply Z.ltb_lt; lia|].
      apply Z.leb_le. rewrite len_append. lia. }
  destruct (String.eqb_spec e (u ++ e)) as [Heq | _].
  { apply (f_equal JS.len) in Heq. rewrite len_append in Heq. lia. }
  rewrite list_of_append, rev_app_distr.
  rewrite list_of_append in Hns.
  destruct (suffix_loop_matching e (rev (list_ascii_of_string e)) []
              (rev (list_ascii_of_string u))
              {| NodePath.sx_start := 0; NodePath.sx_end := -1;
                 NodePath.sx_matchedSlash := true;
                 NodePath.sx_extIdx := JS.len e - 1;
                 NodePath.sx_firstNonSlashEnd := -1 |})
    as (st' & Hl & Hs' & He' & Hend & Hf').
  - now rewrite rev_involutive, app_nil_r.
  - intro H. apply (f_equal (@List.length ascii)) in H.
    rewrite length_rev, length_list_of in H. cbn in H. unfold JS.len in Hle'. lia.
  - intro H. apply Hns. apply in_or_app. right. now apply in_rev.
  - cbn [NodePath.sx_extIdx]. now rewrite length_rev, length_list_of.
  - cbv zeta. rewrite Hl.
    rewrite suffix_loop_settled; [|intro H; apply Hns; apply in_or_app; left;
                                   now apply in_rev|assumption..].
    rewrite Hs', Hend. cbn [NodePath.sx_start].
    rewrite length_rev, length_list_of. fold (JS.len u).
    replace (0 =? JS.len u) with false by (symmetry; apply Z.eqb_neq; lia).
    replace (JS.len u =? -1) with false by (symmetry; apply Z.eqb_neq; lia).
    change (u ++ e) with ("" ++ u ++ e).
    apply (slice_middle "" u e).
Qed.

(** [path.basename] of a name without slash is the name. *)
Lemma basename_slash_free (f : string) :
  ~ In JS.slash (list_ascii_of_string f) -> NodePath.basename f = f.
Proof.
  intro Hns. destruct f as [|c f]; [reflexivity|].
  pose proof (basename_decomposed "" (String c f) "") as H.
  cbn [append] in H. rewrite append_nil_r in H.
  apply H; [discriminate | exact Hns | constructor | now left].
Qed.

(** Title and format computed by [getResource] from a name without
    slash. *)
Lemma title_and_format (f : string) :
  ~ In JS.slash (list_ascii_of_string f) ->
  let title := NodePath.basename_suffix f (NodePath.extname f) in
  let format := JS.substring_from (NodePath.extname f) 1 in
  (title = f /\ format = "") \/
  (f = title ++ "." ++ format /\ title <> "" /\
   ~ In JS.dot (list_ascii_of_string format)).
Proof.
  intros Hns title format.
  assert (Hnone : NodePath.extname f = "" -> title = f /\ format = "").
  { intro H. unfold title, format. rewrite H. split; [|reflexivity].
    unfold NodePath.basename_suffix. cbn [JS.len String.length Z.of_nat Z.ltb Z.compare andb].
    now apply basename_slash_free. }
  destruct f as [|c f]; [left; split; reflexivity|].
  destruct (extname_decomposed "" (String c f) "") as [H | (u & v & Hf & Hu & Hv & H)];
    [discriminate | exact Hns | constructor | now left | | ];
    cbn [append] in H; rewrite append_nil_r in H.
  - left. now apply Hnone.
  - right. unfold title, format. rewrite H.
    change (JS.substring_from (String JS.dot v) 1)
      with (JS.substring_from ("." ++ v) (JS.len ".")).
    rewrite (substring_from_append "." v).
    rewrite Hf in Hns |- *.
    change (String JS.dot v) with ("." ++ v).
    rewrite basename_suffix_strips; [|assumption|discriminate|exact Hns].
    now repeat split.
Qed.

Lemma fileName_of_slash_free (id : string) :
  ~ In JS.slash (list_ascii_of_string (fileName_of id)).
Proof.
  destruct (tail_decomposition id) as (dir & fileName & -> & Hns & Hdir).
  unfold fileName_of. now rewrite substring_after_last_slash.
Qed.

(** X17.  The title and the format of a downloaded resource are cut from
    the file name, the part of the id after its last slash, and put it back
    together: either the format is empty and the title is the whole file
    name, or the file name is the title, a dot and the format, with a title
    that is not empty and a format without dot. *)
Theorem download_title_and_format (w : World) (ctx : GetResourceContext.t) (r : Resource)
    (H : settled (getResource w ctx) = Fulfilled r) :
  let fileName := fileName_of (GetResourceContext.resourceId ctx) in
  (res_title r = fileName /\ res_format r = "") \/
  (fileName = res_title r ++ "." ++ res_format r /\
   res_title r <> "" /\
   ~ In JS.dot (list_ascii_of_string (res_format r))).
Proof.
  intro fileName.
  destruct (stream_opened (trace (getResource w ctx))) eqn:Hop.
  2:{ destruct (getResource_not_opened w ctx Hop) as (_ & _ & e & He). congruence. }
  destruct (getResource_opened w ctx Hop) as (_ & _ & Hset & _).
  rewrite H in Hset.
  destruct (ending (file_createReadStream w _ _)) as [|e].
  2:{ destruct (log_error _ _); discriminate. }
  destruct (failed_reports _ _ _); [destruct (fs_createWriteStream w _)|];
    try discriminate.
  injection Hset as ->. cbn [res_title res_format].
  apply title_and_format, fileName_of_slash_free.
Qed.

Lemma download_title_and_format_witness :
  ("file1" = "file1.csv" /\ "csv" = "") \/
  ("file1.csv" = "file1" ++ "." ++ "csv" /\ "file1" <> "" /\
   ~ In JS.dot (list_ascii_of_string "csv")).
Proof.
  exact (download_title_and_format Sample.root_world
           (Sample.download Sample.with_secret "folder1/file1.csv")
           {| res_id := "folder1/file1.csv"; res_title := "file1";
              res_filePath := "/tmp/file1.csv"; res_format := "csv" |} eq_refl).
Defined.
